(** * The React adapter of the geocoding control

    A shallow embedding of the two adapter modules of the repository,
    [src/react.ts] (the current, extended variant) and [src/lib/react.ts]
    (the older, base variant), together with the part of the React hook
    runtime they rely on ([useRef], [useEffect], [useImperativeHandle]).

    The wrapped Svelte component is an external collaborator: every call the
    adapter makes on it is recorded in a log, and the subscriptions it holds
    are kept in a table. *)

From Stdlib Require Import ZArith Ascii String.
From stdpp Require Import base decidable option list strings gmap fin_maps.

Local Open Scope string_scope.
Local Open Scope list_scope.

(** ** JavaScript values

    Objects and functions are compared by identity, so they are references;
    numbers are integers (no option of the control is compared as a NaN). *)

Inductive value : Type :=
  | VUndefined
  | VNull
  | VBool (b : bool)
  | VNum (z : Z)
  | VStr (s : string)
  | VObj (ref : nat)
  | VFun (ref : nat).

#[global] Instance value_eq_dec : EqDecision value.
Proof. solve_decision. Defined.

(** [Object.is], the comparison React applies to effect dependencies. *)
Definition object_is (a b : value) : bool := bool_decide (a = b).

(** [a !== undefined] *)
Definition is_defined (a : value) : bool :=
  match a with VUndefined => false | _ => true end.

(** Truthiness, as tested by [!x] and [x && y]. *)
Definition truthy (a : value) : bool :=
  match a with
  | VUndefined | VNull => false
  | VBool b => b
  | VNum z => negb (z =? 0)%Z
  | VStr s => negb (bool_decide (s = ""))
  | VObj _ | VFun _ => true
  end.

(** The props bag: a JavaScript object used as a map from names to values. *)
Abbreviation props_bag := (gmap string value).

(** [props[name]]: a missing key reads as [undefined]. *)
Definition get (props : props_bag) (name : string) : value :=
  default VUndefined (props !! name).

(** ** The two variants *)

Inductive variant : Type :=
  | Extended   (* src/react.ts *)
  | Base.      (* src/lib/react.ts *)

#[global] Instance variant_eq_dec : EqDecision variant.
Proof. solve_decision. Defined.

(** The list is the same in both files. *)
Definition eventNames : list string :=
  [ "featuresListed";
    "featuresMarked";
    "optionsVisibilityChange";
    "pick";
    "queryChange";
    "response";
    "reverseToggle";
    "select" ].

Definition propertyNames (v : variant) : list string :=
  match v with
  | Extended =>
      [ "adjustUrlQuery"; "apiKey"; "bbox"; "clearButtonTitle"; "clearOnBlur";
        "collapsed"; "country"; "debounceSearch"; "enableReverse";
        "errorMessage"; "excludeTypes"; "filter"; "fuzzyMatch"; "language";
        "limit"; "mapController"; "minLength"; "noResultsMessage";
        "pickedResultStyle"; "placeholder"; "proximity"; "reverseActive";
        "reverseButtonTitle"; "showPlaceType"; "showResultsWhileTyping";
        "types"; "zoom" ]
  | Base =>
      [ "apiKey"; "bbox"; "clearButtonTitle"; "clearOnBlur"; "collapsed";
        "country"; "debounceSearch"; "enableReverse"; "errorMessage";
        "filter"; "fuzzyMatch"; "language"; "limit"; "minLength";
        "noResultsMessage"; "placeholder"; "proximity"; "reverseButtonTitle";
        "showFullGeometry"; "showPlaceType"; "showResultsWhileTyping";
        "trackProximity"; "types"; "zoom"; "mapController" ]
  end.

(** ** Errors *)

Inductive error : Type :=
  | Error       (* [throw new Error()] *)
  | TypeError.  (* a member access on [undefined] *)

Inductive result (A : Type) : Type :=
  | Ok (a : A)
  | Throw (e : error).
Arguments Ok {A} a.
Arguments Throw {A} e.

(** ** [getEventFnName] *)

(** [c.toUpperCase()] for a one-character string [c] that is an ASCII
    character (code below 128), where JavaScript's mapping is this one.
    Outside ASCII JavaScript's mapping is Unicode's and is not modelled:
    what is stated below about the result of [toUpperCase] and of
    [getEventFnName] is stated for names that start with an ASCII
    character. *)
Definition toUpperCase (c : ascii) : ascii :=
  let n := N_of_ascii c in
  if ((97 <=? n) && (n <=? 122))%N then ascii_of_N (n - 32) else c.

(** ["on" + name[0].toUpperCase() + name.slice(1)]; [name[0]] is
    [undefined] for the empty string, and the method call on it throws. *)
Definition getEventFnName (name : string) : result string :=
  match name with
  | EmptyString => Throw TypeError
  | String c rest => Ok ("on" +:+ String (toUpperCase c) rest)
  end.

(** [const options = { ...props }; for (const eventName of eventNames)
    delete options[getEventFnName(eventName)];] *)
Fixpoint delete_callbacks (names : list string) (options : props_bag)
  : result props_bag :=
  match names with
  | [] => Ok options
  | eventName :: names' =>
      match getEventFnName eventName with
      | Ok fn => delete_callbacks names' (delete fn options)
      | Throw e => Throw e
      end
  end.

Definition strip_options (props : props_bag) : result props_bag :=
  delete_callbacks eventNames props.

(** ** The wrapped component

    [GeocodingControl.svelte] is not part of the adapter modules.  Its
    interface is the Svelte component interface the adapter calls:
    a constructor taking a target node and initial props, [$set], [$on]
    (which returns the function that removes the subscription), [$destroy],
    and the methods [setQuery], [clearMap], [clearList], [focus], [blur]. *)

Definition node := nat.
Definition control := nat.

Inductive call : Type :=
  | CNew (c : control) (target : node) (props : props_bag)
  | CSet (c : control) (name : string) (v : value)
  | COn (c : control) (type : string) (handler : option value)
  | CUnsubscribe (sub : nat)
  | CDestroy (c : control)
  | CSetQuery (c : control) (v submit : value)
  | CClearMap (c : control)
  | CClearList (c : control)
  | CFocus (c : control)
  | CBlur (c : control).

#[global] Instance call_eq_dec : EqDecision call.
Proof. solve_decision. Defined.

(** A live subscription: the trampoline [(e) => callback(e.detail)]
    registered on [sub_control] for the event [sub_type]. *)
Record subscription : Type := Subscription {
  sub_id : nat;
  sub_control : control;
  sub_type : string;
  sub_callback : value
}.

(** The functions an effect can return as its cleanup. *)
Inductive cleanup : Type :=
  | Destroy (c : control)      (* [() => control.$destroy()] *)
  | Unsubscribe (sub : nat)    (* the function returned by [$on] *)
  | Noop.

(** The state the adapter works on: its two refs, and the wrapped
    component's side (the calls received, the subscriptions held, the
    instances alive). *)
Record world : Type := World {
  divRef : option node;
  controlRef : option control;
  log : list call;
  subscriptions : list subscription;
  alive : list control;
  fresh : nat
}.

Definition init (host : option node) : world :=
  {| divRef := host; controlRef := None; log := []; subscriptions := [];
     alive := []; fresh := 0 |}.

(** State and exceptions: the effects of a statement that throws stay. *)
Definition M (A : Type) : Type := world -> world * result A.

Definition ret {A} (a : A) : M A := fun w => (w, Ok a).
Definition throw {A} (e : error) : M A := fun w => (w, Throw e).
Definition bind {A B} (m : M A) (k : A -> M B) : M B :=
  fun w => match m w with
           | (w', Ok a) => k a w'
           | (w', Throw e) => (w', Throw e)
           end.

Notation "x <- m ;; k" := (bind m (fun x => k))
  (at level 100, m at next level, right associativity).
Notation "m ;;; k" := (bind m (fun _ => k))
  (at level 100, right associativity).

Definition record (c : call) : M unit :=
  fun w => (World (divRef w) (controlRef w) (log w ++ [c]) (subscriptions w)
              (alive w) (fresh w), Ok tt).

Definition set_controlRef (c : control) : M unit :=
  fun w => (World (divRef w) (Some c) (log w) (subscriptions w)
              (alive w) (fresh w), Ok tt).

(** Modelled from the spec: the constructor of the wrapped component
    (GeocodingControl.svelte is missing), "constructor(mountNode,
    initialProps) -> instance". *)
Definition new_GeocodingControl (target : node) (props : props_bag) : M control :=
  fun w =>
    let c := fresh w in
    (World (divRef w) (controlRef w) (log w ++ [CNew c target props])
       (subscriptions w) (c :: alive w) (S c), Ok c).

(** Modelled from the spec: "instance.update(partialProps)", here with
    the one-key object [{ [name]: v }]. *)
Definition dollar_set (c : control) (name : string) (v : value) : M unit :=
  record (CSet c name v).

(** Modelled from the spec: "instance.on(eventName, handler) ->
    unsubscribe"; without a handler nothing is installed. *)
Definition dollar_on (c : control) (type : string) (handler : option value)
  : M cleanup :=
  fun w =>
    match handler with
    | Some cb =>
        let s := fresh w in
        (World (divRef w) (controlRef w) (log w ++ [COn c type handler])
           (subscriptions w ++ [Subscription s c type cb]) (alive w) (S s),
         Ok (Unsubscribe s))
    | None =>
        (World (divRef w) (controlRef w) (log w ++ [COn c type handler])
           (subscriptions w) (alive w) (fresh w), Ok Noop)
    end.

Definition unsubscribe (sub : nat) : M unit :=
  fun w =>
    (World (divRef w) (controlRef w) (log w ++ [CUnsubscribe sub])
       (filter (fun s => sub_id s ≠ sub) (subscriptions w)) (alive w)
       (fresh w), Ok tt).

(** Modelled from the spec: "instance.destroy()". *)
Definition dollar_destroy (c : control) : M unit :=
  fun w =>
    (World (divRef w) (controlRef w) (log w ++ [CDestroy c])
       (subscriptions w) (filter (fun c' => c' ≠ c) (alive w)) (fresh w),
     Ok tt).

Definition run_cleanup (f : cleanup) : M unit :=
  match f with
  | Destroy c => dollar_destroy c
  | Unsubscribe s => unsubscribe s
  | Noop => ret tt
  end.

(** The subscriptions held for one event name. *)
Definition subscribed (type : string) (w : world) : list subscription :=
  filter (fun s => sub_type s = type) (subscriptions w).

(** Dispatching an event: every trampoline subscribed to [type] calls its
    callback with the detail; the result lists the (callback, argument)
    pairs in subscription order. *)
Definition dispatch (type : string) (detail : value) (w : world)
  : list (value * value) :=
  map (fun s => (sub_callback s, detail)) (subscribed type w).

Definition get_divRef : M (option node) := fun w => (w, Ok (divRef w)).
Definition get_controlRef : M (option control) :=
  fun w => (w, Ok (controlRef w)).

(** ** The hook runtime

    [useEffect(create, deps)] registers an effect; React keeps, per hook
    slot, the dependencies of the last render and the cleanup the last run
    of the effect returned. *)

Record effect : Type := Effect {
  deps : list value;
  create : M (option cleanup)
}.

Record slot : Type := Slot {
  slot_deps : list value;
  slot_cleanup : option cleanup
}.

(** React compares the dependency arrays position by position with
    [Object.is], over their common length. *)
Fixpoint areHookInputsEqual (next prev : list value) : bool :=
  match next, prev with
  | a :: next', b :: prev' => object_is a b && areHookInputsEqual next' prev'
  | _, _ => true
  end.

Definition run_slot_cleanup (s : slot) : M unit :=
  match slot_cleanup s with
  | Some f => run_cleanup f
  | None => ret tt
  end.

(** First commit: every effect runs, in hook order. *)
Fixpoint commit_mount (effects : list effect) : M (list slot) :=
  match effects with
  | [] => ret []
  | e :: effects' =>
      f <- create e ;;
      slots <- commit_mount effects' ;;
      ret (Slot (deps e) f :: slots)
  end.

(** Later commits: the cleanups of all effects whose dependencies changed
    run first, in hook order ... *)
Fixpoint commit_cleanup_changed (effects : list effect) (slots : list slot)
  : M unit :=
  match effects, slots with
  | e :: effects', s :: slots' =>
      (if areHookInputsEqual (deps e) (slot_deps s) then ret tt
       else run_slot_cleanup s) ;;;
      commit_cleanup_changed effects' slots'
  | _, _ => ret tt
  end.

(** ... then these effects run again, in hook order. *)
Fixpoint commit_create_changed (effects : list effect) (slots : list slot)
  : M (list slot) :=
  match effects, slots with
  | e :: effects', s :: slots' =>
      s1 <- (if areHookInputsEqual (deps e) (slot_deps s) then ret s
             else f <- create e ;; ret (Slot (deps e) f)) ;;
      rest <- commit_create_changed effects' slots' ;;
      ret (s1 :: rest)
  | _, _ => ret []
  end.

(** Unmount: every cleanup runs, in hook order. *)
Fixpoint commit_unmount (slots : list slot) : M unit :=
  match slots with
  | [] => ret tt
  | s :: slots' => run_slot_cleanup s ;;; commit_unmount slots'
  end.

(** ** The component [ReactGeocodingControl] *)

(** [useEffect(() => { if (!divRef.current) throw new Error();
    const control = new GeocodingControl({ target: divRef.current,
    props: options }); controlRef.current = control;
    return () => control.$destroy(); }, [])] *)
Definition mount_effect (options : props_bag) : effect :=
  Effect []
    (target <- get_divRef ;;
     match target with
     | None => throw Error
     | Some t =>
         control <- new_GeocodingControl t options ;;
         set_controlRef control ;;;
         ret (Some (Destroy control))
     end).

(** [useEffect(() => { if (controlRef.current && props[propName] !==
    undefined) controlRef.current.$set({ [propName]: props[propName] }); },
    [props[propName]])] *)
Definition property_effect (props : props_bag) (propName : string) : effect :=
  Effect [get props propName]
    (current <- get_controlRef ;;
     match current with
     | Some control =>
         if is_defined (get props propName)
         then dollar_set control propName (get props propName) ;;; ret None
         else ret None
     | None => ret None
     end).

(** The effect of the event loop, for [eventHandlerFn =
    props[getEventFnName(eventName)]] and dependencies [[eventHandlerFn]].

    [Extended]: [() => eventHandlerFn && controlRef.current?.$on(eventName,
    (e) => { eventHandlerFn(e.detail) })]; the value of the expression is
    what the effect returns.  [Props] types a callback as a function or
    [undefined], so a falsy left operand is [undefined], for which React
    keeps no cleanup.  A falsy callback of another type ([null], [false],
    [0], the empty string) is outside [Props] and outside this model: React
    would keep it as the cleanup and throw a [TypeError] when it calls it.
    What is proved about the cleanups of the extended variant is therefore
    proved for renders whose callbacks are typed, [typed_reachable] below.

    [Base]: [() => { controlRef.current?.$on(eventName, !eventHandlerFn ?
    undefined : (e) => { eventHandlerFn(e.detail) }) }]; the body is a
    block, the effect returns nothing. *)
Definition event_effect (v : variant) (props : props_bag)
    (eventName fnName : string) : effect :=
  let eventHandlerFn := get props fnName in
  Effect [eventHandlerFn]
    match v with
    | Extended =>
        if truthy eventHandlerFn then
          current <- get_controlRef ;;
          match current with
          | Some control =>
              off <- dollar_on control eventName (Some eventHandlerFn) ;;
              ret (Some off)
          | None => ret None
          end
        else ret None
    | Base =>
        current <- get_controlRef ;;
        match current with
        | Some control =>
            dollar_on control eventName
              (if truthy eventHandlerFn then Some eventHandlerFn else None) ;;;
            ret None
        | None => ret None
        end
    end.

(** [for (const eventName of eventNames) { const eventHandlerFn =
    props[getEventFnName(eventName)]; useEffect(...) }] *)
Fixpoint event_effects (v : variant) (props : props_bag) (names : list string)
  : result (list effect) :=
  match names with
  | [] => Ok []
  | eventName :: names' =>
      match getEventFnName eventName with
      | Throw e => Throw e
      | Ok fnName =>
          match event_effects v props names' with
          | Throw e => Throw e
          | Ok effects => Ok (event_effect v props eventName fnName :: effects)
          end
      end
  end.

(** One render: the effects the function body registers, in hook order. *)
Definition ReactGeocodingControl (v : variant) (props : props_bag)
  : result (list effect) :=
  match strip_options props with
  | Throw e => Throw e
  | Ok options =>
      match event_effects v props eventNames with
      | Throw e => Throw e
      | Ok handlers =>
          Ok (mount_effect options
                :: map (property_effect props) (propertyNames v) ++ handlers)
      end
  end.

(** ** The imperative handle *)

(** [controlRef.current?.m(...)] *)
Definition optional_call (m : control -> call) : M value :=
  current <- get_controlRef ;;
  match current with
  | Some control => record (m control) ;;; ret VUndefined
  | None => ret VUndefined
  end.

(** [args[i]], [undefined] past the end. *)
Definition arg (i : nat) (args : list value) : value := nth i args VUndefined.

(** [(value, submit = true) => ...]: the default applies when the argument
    is [undefined]. *)
Definition with_default (d a : value) : value :=
  match a with VUndefined => d | _ => a end.

(** The object that [useImperativeHandle] stores in the caller's ref. *)
Definition imperative_handle (v : variant)
  : list (string * (list value -> M value)) :=
  match v with
  | Extended =>
      [ ("setQuery", fun args =>
           optional_call (fun c =>
             CSetQuery c (arg 0 args) (with_default (VBool true) (arg 1 args))));
        ("clearMap", fun _ => optional_call CClearMap);
        ("clearList", fun _ => optional_call CClearList);
        ("focus", fun _ => optional_call CFocus);
        ("blur", fun _ => optional_call CBlur) ]
  | Base =>
      [ ("setQuery", fun args =>
           optional_call (fun c =>
             CSetQuery c (arg 0 args) (with_default (VBool true) (arg 1 args))));
        ("focus", fun _ => optional_call CFocus);
        ("blur", fun _ => optional_call CBlur) ]
  end.

Fixpoint assoc {A} (name : string) (l : list (string * A)) : option A :=
  match l with
  | [] => None
  | (k, a) :: l' => if bool_decide (k = name) then Some a else assoc name l'
  end.

(** [ref.current[name](...args)]; calling a missing member throws. *)
Definition invoke (v : variant) (name : string) (args : list value) : M value :=
  match assoc name (imperative_handle v) with
  | Some m => m args
  | None => throw TypeError
  end.

(** ** The lifecycle of one adapter *)

Definition mount (v : variant) (props : props_bag) : M (list slot) :=
  match ReactGeocodingControl v props with
  | Throw e => throw e
  | Ok effects => commit_mount effects
  end.

Definition update (v : variant) (props : props_bag) (slots : list slot)
  : M (list slot) :=
  match ReactGeocodingControl v props with
  | Throw e => throw e
  | Ok effects =>
      commit_cleanup_changed effects slots ;;;
      commit_create_changed effects slots
  end.

Definition unmount (slots : list slot) : M unit := commit_unmount slots.

Fixpoint updates (v : variant) (renders : list props_bag) (slots : list slot)
  : M (list slot) :=
  match renders with
  | [] => ret slots
  | props :: renders' => slots' <- update v props slots ;; updates v renders' slots'
  end.

(** Mount with [props], re-render with each bag of [renders], unmount. *)
Definition lifecycle (v : variant) (props : props_bag)
    (renders : list props_bag) : M unit :=
  slots <- mount v props ;;
  slots' <- updates v renders slots ;;
  unmount slots'.

(** The scenario of the specification. *)
Definition cb1 : value := VFun 1.
Definition cb2 : value := VFun 2.
Definition props1 : props_bag := {[ "apiKey" := VStr "k1"; "onSelect" := cb1 ]}.
Definition props2 : props_bag := {[ "apiKey" := VStr "k2"; "onSelect" := cb1 ]}.
Definition props3 : props_bag := {[ "apiKey" := VStr "k2"; "onSelect" := cb2 ]}.
Definition props4 : props_bag := {[ "apiKey" := VStr "k2" ]}.
Definition host1 : node := 7.

(** The adapter after mounting with [props1] on [host1]. *)
Definition world1 (v : variant) : world :=
  fst (mount v props1 (init (Some host1))).
Definition slots1 (v : variant) : list slot :=
  match snd (mount v props1 (init (Some host1))) with
  | Ok slots => slots
  | Throw _ => []
  end.


(** The adapter after mounting with [props1] and re-rendering with another
    callback ([props3]), or with no callback ([props4]). *)
Definition replaced (v : variant) : world :=
  fst (update v props3 (slots1 v) (world1 v)).
Definition removed (v : variant) : world :=
  fst (update v props4 (slots1 v) (world1 v)).

(** ** Reading the log *)

(** [emit l w]: the world after the calls [l] reached the wrapped
    component and nothing else changed. *)
Definition emit (l : list call) (w : world) : world :=
  World (divRef w) (controlRef w) (log w ++ l) (subscriptions w) (alive w)
    (fresh w).

(** The payloads of the [$set] calls of a log, in order. *)
Definition sets (l : list call) : list (string * value) :=
  omap (fun c => match c with CSet _ n x => Some (n, x) | _ => None end) l.

(** The instances a log constructs, and the instances it destroys. *)
Definition constructions (l : list call) : list control :=
  omap (fun c => match c with CNew k _ _ => Some k | _ => None end) l.

Definition destructions (l : list call) : list control :=
  omap (fun c => match c with CDestroy k => Some k | _ => None end) l.

(** Calls of the subscription mechanism. *)
Definition is_wiring (c : call) : bool :=
  match c with COn _ _ _ | CUnsubscribe _ => true | _ => false end.

(** Calls through the imperative handle. *)
Definition is_method (c : call) : bool :=
  match c with
  | CSetQuery _ _ _ | CClearMap _ | CClearList _ | CFocus _ | CBlur _ => true
  | _ => false
  end.

(** The hook slot a property effect leaves behind. *)
Definition property_slot (props : props_bag) (propName : string) : slot :=
  Slot [get props propName] None.

(** The [$set] calls of a first commit: every defined option. *)
Definition delivered (c : control) (props : props_bag) (names : list string)
  : list call :=
  flat_map (fun n => if is_defined (get props n)
                     then [CSet c n (get props n)] else []) names.

(** The [$set] calls of a later commit: every option that changed and is
    defined. *)
Definition forwarded (c : control) (props prev : props_bag)
    (names : list string) : list call :=
  flat_map (fun n => if object_is (get props n) (get prev n) then []
                     else if is_defined (get props n)
                          then [CSet c n (get props n)] else []) names.

(** The event names with the callback property of each. *)
Definition event_table : list (string * string) :=
  [ ("featuresListed", "onFeaturesListed");
    ("featuresMarked", "onFeaturesMarked");
    ("optionsVisibilityChange", "onOptionsVisibilityChange");
    ("pick", "onPick");
    ("queryChange", "onQueryChange");
    ("response", "onResponse");
    ("reverseToggle", "onReverseToggle");
    ("select", "onSelect") ].

Definition callbackNames : list string := map snd event_table.

(** [steps w w' l]: from [w] to [w'] the calls [l] were made, the refs
    are the same and no instance was constructed or destroyed. *)
Definition steps (w w' : world) (l : list call) : Prop :=
  divRef w' = divRef w /\ controlRef w' = controlRef w /\
  alive w' = alive w /\ log w' = log w ++ l.

(** The effects of the event loop, from the table. *)
Definition handler_effects (v : variant) (props : props_bag)
    (tbl : list (string * string)) : list effect :=
  map (fun ef => event_effect v props ef.1 ef.2) tbl.

(** The hook slots of the event loop after a render with [props]. *)
Definition handler_slots (props : props_bag) (tbl : list (string * string))
    (slots : list slot) : Prop :=
  Forall2 (fun ef s => slot_deps s = [get props ef.2] /\
                       forall k, slot_cleanup s <> Some (Destroy k)) tbl slots.

(** The props bag without the callback properties. *)
Definition constructor_options (props : props_bag) : props_bag :=
  foldl (fun options fn => delete fn options) props callbackNames.

(** [mounted v props slots w c]: the adapter rendered [props] last, its
    hook slots are [slots], and [c] is its one wrapped instance. *)
Definition mounted (v : variant) (props : props_bag) (slots : list slot)
    (w : world) (c : control) : Prop :=
  exists hs,
    slots = Slot [] (Some (Destroy c))
              :: map (property_slot props) (propertyNames v) ++ hs /\
    handler_slots props event_table hs /\
    controlRef w = Some c /\ alive w = [c] /\
    constructions (log w) = [c] /\ destructions (log w) = [].

(** The subscription ids of a world are distinct and were all handed out
    already. *)
Definition ids_ok (w : world) : Prop :=
  NoDup (sub_id <$> subscriptions w) /\
  Forall (fun s => sub_id s < fresh w) (subscriptions w).

(** [live props c w (e, fn) s]: the hook slot [s] of the event [e] after a
    render with [props], in the extended variant: when the callback
    [props[fn]] is given, the slot holds the unsubscribe function of the one
    subscription to [e], which calls that callback; otherwise the slot holds
    no cleanup and nothing is subscribed to [e]. *)
Definition live (props : props_bag) (c : control) (w : world)
    (ef : string * string) (s : slot) : Prop :=
  slot_deps s = [get props ef.2] /\
  if truthy (get props ef.2)
  then exists id, slot_cleanup s = Some (Unsubscribe id) /\
                  subscribed ef.1 w
                  = [Subscription id c ef.1 (get props ef.2)]
  else slot_cleanup s = None /\ subscribed ef.1 w = [].

(** The same slot between the two phases of a commit with [props]: the
    subscription of a callback that changed is gone. *)
Definition cleaned (prev props : props_bag) (c : control) (w : world)
    (ef : string * string) (s : slot) : Prop :=
  if bool_decide (get props ef.2 = get prev ef.2)
  then live prev c w ef s
  else slot_deps s = [get prev ef.2] /\ subscribed ef.1 w = [].

(** The extended variant between mount and unmount. *)
Definition extended_mounted (props : props_bag) (slots : list slot)
    (w : world) : Prop :=
  exists hs,
    slots = Slot [] (Some (Destroy 0))
              :: map (property_slot props) (propertyNames Extended) ++ hs /\
    Forall2 (live props 0 w) event_table hs /\
    ids_ok w /\ controlRef w = Some 0.

Definition is_unsubscribe (x : call) : bool :=
  match x with CUnsubscribe _ => true | _ => false end.

Definition is_on (x : call) : bool :=
  match x with COn _ _ (Some _) => true | _ => false end.

(** A bag that differs from [props1] in a key that the extended variant
    does not enumerate. *)
Definition props5 : props_bag := <[ "showFullGeometry" := VBool true ]> props1.

(** The callbacks subscribed to one event, in subscription order. *)
Definition callbacks (type : string) (w : world) : list value :=
  map sub_callback (subscribed type w).

(** The hook slot of an event in the base variant, whose event effect
    returns nothing. *)
Definition handler_slot (props : props_bag) (ef : string * string) : slot :=
  Slot [get props ef.2] None.

(** The [$on] call of the base variant's event effect. *)
Definition base_on_call (c : control) (props : props_bag)
    (ef : string * string) : call :=
  COn c ef.1 (if truthy (get props ef.2) then Some (get props ef.2) else None).

(** The hook slots of the base variant after a render with [props]. *)
Definition base_slots (props : props_bag) : list slot :=
  Slot [] (Some (Destroy 0))
    :: map (property_slot props) (propertyNames Base)
    ++ map (handler_slot props) event_table.

(** The first character is a lower-case ASCII letter. *)
Definition lower_initial (name : string) : Prop :=
  match name with
  | String c _ => (97 <= N_of_ascii c <= 122)%N
  | EmptyString => False
  end.

(** The part of [live] that does not depend on the world: the slot of an
    event holds an unsubscribe function exactly when the callback of the
    last render is given. *)
Definition tracked (props : props_bag) (ef : string * string) (s : slot)
  : Prop :=
  slot_deps s = [get props ef.2] /\
  if truthy (get props ef.2)
  then exists id, slot_cleanup s = Some (Unsubscribe id)
  else slot_cleanup s = None.

(** What [Props] admits as a callback property: a function, or
    [undefined]. *)
Definition is_callback (x : value) : bool :=
  match x with VUndefined | VFun _ => true | _ => false end.

Definition callbacks_typed (props : props_bag) : Prop :=
  Forall (fun fn => is_callback (get props fn) = true) callbackNames.

(** The first character is an ASCII character. *)
Definition ascii_initial (name : string) : Prop :=
  match name with
  | String c _ => (N_of_ascii c < 128)%N
  | EmptyString => False
  end.

(** The states an adapter goes through between mount and unmount: after the
    first commit on an existing host node, after every later commit, and
    after every call through the imperative handle. *)
Inductive reachable (v : variant) : props_bag -> list slot -> world -> Prop :=
  | reach_mount host props slots w :
      mount v props (init (Some host)) = (w, Ok slots) ->
      reachable v props slots w
  | reach_update prev props slots w slots' w' :
      reachable v prev slots w ->
      update v props slots w = (w', Ok slots') ->
      reachable v props slots' w'
  | reach_invoke props slots w name args w' r :
      reachable v props slots w ->
      invoke v name args w = (w', Ok r) ->
      reachable v props slots w'.

(** The same states, for an adapter all of whose renders gave callbacks of
    the type that [Props] declares. *)
Inductive typed_reachable (v : variant)
  : props_bag -> list slot -> world -> Prop :=
  | typed_mount host props slots w :
      callbacks_typed props ->
      mount v props (init (Some host)) = (w, Ok slots) ->
      typed_reachable v props slots w
  | typed_update prev props slots w slots' w' :
      typed_reachable v prev slots w ->
      callbacks_typed props ->
      update v props slots w = (w', Ok slots') ->
      typed_reachable v props slots' w'
  | typed_invoke props slots w name args w' r :
      typed_reachable v props slots w ->
      invoke v name args w = (w', Ok r) ->
      typed_reachable v props slots w'.

(** * Properties *)

Section Runtime.

Lemma record_emit x w : record x w = (emit [x] w, Ok tt).
Proof. done. Qed.

Lemma dollar_set_emit c n x w :
  dollar_set c n x w = (emit [CSet c n x] w, Ok tt).
Proof. done. Qed.

Lemma emit_nil w : emit [] w = w.
Proof. destruct w; unfold emit; simpl. by rewrite app_nil_r. Qed.

Lemma emit_emit l1 l2 w : emit l2 (emit l1 w) = emit (l1 ++ l2) w.
Proof. unfold emit; simpl. by rewrite app_assoc. Qed.

Lemma commit_mount_app e1 e2 w :
  commit_mount (e1 ++ e2) w =
  match commit_mount e1 w with
  | (w1, Ok s1) =>
      match commit_mount e2 w1 with
      | (w2, Ok s2) => (w2, Ok (s1 ++ s2))
      | (w2, Throw e) => (w2, Throw e)
      end
  | (w1, Throw e) => (w1, Throw e)
  end.
Proof.
  revert w. induction e1 as [|e e1 IH]; intros w; simpl.
  - unfold ret. by destruct (commit_mount e2 w) as [w2 [s2|x]].
  - unfold bind. destruct (create e w) as [w0 [f|x]]; [|done].
    rewrite IH. destruct (commit_mount e1 w0) as [w1 [s1|x]]; [|done].
    unfold ret. by destruct (commit_mount e2 w1) as [w2 [s2|x]].
Qed.

Lemma commit_cleanup_changed_app e1 e2 s1 s2 w :
  length e1 = length s1 ->
  commit_cleanup_changed (e1 ++ e2) (s1 ++ s2) w =
  match commit_cleanup_changed e1 s1 w with
  | (w1, Ok _) => commit_cleanup_changed e2 s2 w1
  | (w1, Throw e) => (w1, Throw e)
  end.
Proof.
  revert s1 w. induction e1 as [|e e1 IH]; intros [|s s1] w Hlen;
    simplify_eq/=; [done|].
  unfold bind.
  destruct ((if areHookInputsEqual (deps e) (slot_deps s) then ret tt
             else run_slot_cleanup s) w) as [w0 [[]|x]]; [|done].
  by apply IH.
Qed.

Lemma commit_create_changed_app e1 e2 s1 s2 w :
  length e1 = length s1 ->
  commit_create_changed (e1 ++ e2) (s1 ++ s2) w =
  match commit_create_changed e1 s1 w with
  | (w1, Ok r1) =>
      match commit_create_changed e2 s2 w1 with
      | (w2, Ok r2) => (w2, Ok (r1 ++ r2))
      | (w2, Throw e) => (w2, Throw e)
      end
  | (w1, Throw e) => (w1, Throw e)
  end.
Proof.
  revert s1 w. induction e1 as [|e e1 IH]; intros [|s s1] w Hlen;
    simplify_eq/=.
  - unfold ret. by destruct (commit_create_changed e2 s2 w) as [w2 [r2|x]].
  - unfold bind.
    destruct ((if areHookInputsEqual (deps e) (slot_deps s) then ret s
               else fun w0 => match create e w0 with
                              | (w', Ok a) => ret (Slot (deps e) a) w'
                              | (w', Throw e0) => (w', Throw e0)
                              end) w) as [w0 [s0|x]]; [|done].
    rewrite IH by done.
    destruct (commit_create_changed e1 s1 w0) as [w1 [r1|x]]; [|done].
    unfold ret. by destruct (commit_create_changed e2 s2 w1) as [w2 [r2|x]].
Qed.

Lemma commit_unmount_app s1 s2 w :
  commit_unmount (s1 ++ s2) w =
  match commit_unmount s1 w with
  | (w1, Ok _) => commit_unmount s2 w1
  | (w1, Throw e) => (w1, Throw e)
  end.
Proof.
  revert w. induction s1 as [|s s1 IH]; intros w; simpl; [done|].
  unfold bind. destruct (run_slot_cleanup s w) as [w0 [[]|x]]; [|done].
  apply IH.
Qed.

End Runtime.

(** ** The property effects *)

Section Properties.
Variables (c : control) (props prev : props_bag).

Lemma property_mount names w :
  controlRef w = Some c ->
  commit_mount (map (property_effect props) names) w
  = (emit (delivered c props names) w, Ok (map (property_slot props) names)).
Proof.
  revert w. induction names as [|n names IH]; intros w Hc; simpl.
  - by rewrite emit_nil.
  - unfold bind at 1. unfold bind at 1. unfold get_controlRef at 1.
    rewrite Hc. destruct (is_defined (get props n)) eqn:Hd.
    + unfold bind, ret. rewrite dollar_set_emit.
      rewrite (IH (emit [CSet c n (get props n)] w)) by done.
      by rewrite emit_emit.
    + unfold ret, bind. by rewrite IH.
Qed.

Lemma property_cleanup names w :
  commit_cleanup_changed (map (property_effect props) names)
    (map (property_slot prev) names) w = (w, Ok tt).
Proof.
  revert w. induction names as [|n names IH]; intros w; simpl; [done|].
  unfold bind. destruct (object_is (get props n) (get prev n)); simpl; apply IH.
Qed.

Lemma property_create names w :
  controlRef w = Some c ->
  commit_create_changed (map (property_effect props) names)
    (map (property_slot prev) names) w
  = (emit (forwarded c props prev names) w,
     Ok (map (property_slot props) names)).
Proof.
  revert w. induction names as [|n names IH]; intros w Hc; simpl.
  - by rewrite emit_nil.
  - unfold object_is at 1 2. case_bool_decide as Heq; simpl.
    + unfold bind, ret. rewrite IH by done.
      unfold property_slot. by rewrite Heq.
    + unfold bind at 1. unfold bind at 1. unfold bind at 1.
      unfold get_controlRef at 1. rewrite Hc.
      destruct (is_defined (get props n)) eqn:Hd.
      * unfold bind, ret. rewrite dollar_set_emit.
        rewrite (IH (emit [CSet c n (get props n)] w)) by done.
        by rewrite emit_emit.
      * unfold ret, bind. by rewrite IH.
Qed.

End Properties.

(** ** The event effects *)

Section Handlers.
Variables (v : variant) (props prev : props_bag).

Lemma steps_refl w : steps w w [].
Proof. unfold steps. by rewrite app_nil_r. Qed.

Lemma steps_trans w1 w2 w3 l1 l2 :
  steps w1 w2 l1 -> steps w2 w3 l2 -> steps w1 w3 (l1 ++ l2).
Proof.
  intros (Ha1&Hb1&Hc1&Hd1) (Ha2&Hb2&Hc2&Hd2). unfold steps.
  rewrite Hd2, Hd1, app_assoc. repeat split; congruence.
Qed.

Lemma steps_emit l w : steps w (emit l w) l.
Proof. done. Qed.

Lemma run_cleanup_wiring f w :
  (forall k, f <> Destroy k) ->
  exists w' l, run_cleanup f w = (w', Ok tt) /\ steps w w' l /\
               Forall (fun x => is_wiring x = true) l.
Proof.
  intros Hf. destruct f as [k|s|]; simpl.
  - by destruct (Hf k).
  - eexists _, [CUnsubscribe s]. split; [done|]. split; [done|].
    by repeat constructor.
  - exists w, []. split; [done|]. split; [apply steps_refl|constructor].
Qed.

Lemma run_slot_cleanup_wiring s w :
  (forall k, slot_cleanup s <> Some (Destroy k)) ->
  exists w' l, run_slot_cleanup s w = (w', Ok tt) /\ steps w w' l /\
               Forall (fun x => is_wiring x = true) l.
Proof.
  intros Hs. unfold run_slot_cleanup. destruct (slot_cleanup s) as [f|].
  - apply run_cleanup_wiring. intros k ->. by destruct (Hs k).
  - exists w, []. split; [done|]. split; [apply steps_refl|constructor].
Qed.

Lemma event_create_wiring e fn w :
  exists w' f l, create (event_effect v props e fn) w = (w', Ok f) /\
                 steps w w' l /\ Forall (fun x => is_wiring x = true) l /\
                 forall k, f <> Some (Destroy k).
Proof.
  assert (Hnil : exists w' f l, (w, @Ok (option cleanup) None) = (w', Ok f) /\
            steps w w' l /\ Forall (fun x => is_wiring x = true) l /\
            forall k, f <> Some (Destroy k)).
  { exists w, None, []. split; [done|].
    split; [apply steps_refl|]. split; [constructor|done]. }
  unfold event_effect. destruct v; simpl.
  - destruct (truthy (get props fn)); [|exact Hnil].
    unfold bind, get_controlRef. destruct (controlRef w) as [k|]; [|exact Hnil].
    simpl. eexists _, _, [COn k e (Some (get props fn))].
    split; [done|]. split; [done|]. split; [by repeat constructor|done].
  - unfold bind, get_controlRef. destruct (controlRef w) as [k|]; [|exact Hnil].
    destruct (truthy (get props fn)); simpl.
    + eexists _, _, [COn k e (Some (get props fn))].
      split; [done|]. split; [done|]. split; [by repeat constructor|done].
    + eexists _, _, [COn k e None].
      split; [done|]. split; [done|]. split; [by repeat constructor|done].
Qed.

Lemma handler_mount tbl w :
  exists w' slots l,
    commit_mount (handler_effects v props tbl) w = (w', Ok slots) /\
    steps w w' l /\ Forall (fun x => is_wiring x = true) l /\
    handler_slots props tbl slots.
Proof.
  revert w. induction tbl as [|[e fn] tbl IH]; intros w; simpl.
  - exists w, [], []. split; [done|]. split; [apply steps_refl|].
    split; constructor.
  - destruct (event_create_wiring e fn w) as (w1&f&l1&Hrun&Hs1&Hl1&Hf).
    destruct (IH w1) as (w2&slots&l2&Hrest&Hs2&Hl2&Hslots).
    exists w2, (Slot [get props fn] f :: slots), (l1 ++ l2).
    split; [|split; [by eapply steps_trans|split; [by apply Forall_app|]]].
    + unfold event_effect in Hrun. simpl in Hrun.
      unfold bind at 1. rewrite Hrun. unfold bind, ret. by rewrite Hrest.
    + by constructor.
Qed.

Lemma handler_cleanup tbl slots w :
  handler_slots prev tbl slots ->
  exists w' l,
    commit_cleanup_changed (handler_effects v props tbl) slots w = (w', Ok tt) /\
    steps w w' l /\ Forall (fun x => is_wiring x = true) l.
Proof.
  intros Hslots. revert w.
  induction Hslots as [|[e fn] s tbl slots [Hd Hc] _ IH]; intros w; simpl.
  - exists w, []. split; [done|]. split; [apply steps_refl|constructor].
  - rewrite Hd. simpl.
    assert (exists w1 l1,
      (if object_is (get props fn) (get prev fn) && true then ret tt
       else run_slot_cleanup s) w = (w1, Ok tt) /\
      steps w w1 l1 /\ Forall (fun x => is_wiring x = true) l1)
      as (w1&l1&Hrun&Hs1&Hl1).
    { destruct (object_is _ _ && true).
      - exists w, []. split; [done|]. split; [apply steps_refl|constructor].
      - by apply run_slot_cleanup_wiring. }
    destruct (IH w1) as (w2&l2&Hrest&Hs2&Hl2).
    exists w2, (l1 ++ l2). unfold bind. rewrite Hrun.
    split; [done|]. split; [by eapply steps_trans|by apply Forall_app].
Qed.

Lemma handler_create tbl slots w :
  handler_slots prev tbl slots ->
  exists w' slots' l,
    commit_create_changed (handler_effects v props tbl) slots w
    = (w', Ok slots') /\
    steps w w' l /\ Forall (fun x => is_wiring x = true) l /\
    handler_slots props tbl slots'.
Proof.
  intros Hslots. revert w.
  induction Hslots as [|[e fn] s tbl slots [Hd Hc] _ IH]; intros w; simpl.
  - exists w, [], []. split; [done|]. split; [apply steps_refl|].
    split; constructor.
  - rewrite Hd. simpl. unfold object_is. rewrite andb_true_r.
    case_bool_decide as Heq.
    + destruct (IH w) as (w2&slots'&l2&Hrest&Hs2&Hl2&Hslots').
      exists w2, (s :: slots'), l2. unfold bind, ret. rewrite Hrest.
      split; [done|]. split; [done|]. split; [done|].
      constructor; [|done]. simpl. by rewrite Hd, Heq.
    + destruct (event_create_wiring e fn w) as (w1&f&l1&Hrun&Hs1&Hl1&Hf).
      destruct (IH w1) as (w2&slots'&l2&Hrest&Hs2&Hl2&Hslots').
      exists w2, (Slot [get props fn] f :: slots'), (l1 ++ l2).
      unfold event_effect in Hrun. simpl in Hrun.
      unfold bind at 1. unfold bind at 1. rewrite Hrun.
      unfold bind, ret. rewrite Hrest. split; [done|]. split; [by eapply steps_trans|].
      split; [by apply Forall_app|]. by constructor.
Qed.

Lemma handler_unmount tbl slots w :
  handler_slots prev tbl slots ->
  exists w' l, commit_unmount slots w = (w', Ok tt) /\
               steps w w' l /\ Forall (fun x => is_wiring x = true) l.
Proof.
  intros Hslots. revert w.
  induction Hslots as [|[e fn] s tbl slots [Hd Hc] _ IH]; intros w; simpl.
  - exists w, []. split; [done|]. split; [apply steps_refl|constructor].
  - destruct (run_slot_cleanup_wiring s w Hc) as (w1&l1&Hrun&Hs1&Hl1).
    destruct (IH w1) as (w2&l2&Hrest&Hs2&Hl2).
    exists w2, (l1 ++ l2). unfold bind. rewrite Hrun.
    split; [done|]. split; [by eapply steps_trans|by apply Forall_app].
Qed.

(** When no callback changed, the event effects are skipped. *)
Lemma handler_same tbl slots w :
  handler_slots prev tbl slots ->
  Forall (fun ef => get props ef.2 = get prev ef.2) tbl ->
  commit_cleanup_changed (handler_effects v props tbl) slots w = (w, Ok tt) /\
  commit_create_changed (handler_effects v props tbl) slots w = (w, Ok slots).
Proof.
  intros Hslots. revert w.
  induction Hslots as [|[e fn] s tbl slots [Hd Hc] _ IH]; intros w Hsame;
    simpl; [done|].
  apply Forall_cons in Hsame as [Hfn Hsame]. simpl in Hfn.
  rewrite Hd. simpl. unfold object_is. rewrite andb_true_r, Hfn.
  rewrite bool_decide_eq_true_2 by done.
  destruct (IH w Hsame) as [H1 H2]. unfold bind, ret. by rewrite H1, H2.
Qed.

End Handlers.

(** ** One render and one commit *)

Section Commit.
Variable v : variant.

Lemma render_ok props :
  ReactGeocodingControl v props
  = Ok (mount_effect (constructor_options props)
          :: map (property_effect props) (propertyNames v)
          ++ handler_effects v props event_table).
Proof. reflexivity. Qed.

Lemma constructions_app l1 l2 :
  constructions (l1 ++ l2) = constructions l1 ++ constructions l2.
Proof. apply omap_app. Qed.

Lemma destructions_app l1 l2 :
  destructions (l1 ++ l2) = destructions l1 ++ destructions l2.
Proof. apply omap_app. Qed.

Lemma sets_app l1 l2 : sets (l1 ++ l2) = sets l1 ++ sets l2.
Proof. apply omap_app. Qed.

Lemma wiring_quiet l :
  Forall (fun x => is_wiring x = true) l ->
  constructions l = [] /\ destructions l = [] /\ sets l = [].
Proof.
  induction 1 as [|x l Hx _ (IH1&IH2&IH3)]; [done|].
  by destruct x; simplify_eq/=.
Qed.

Lemma delivered_quiet c props names :
  constructions (delivered c props names) = [] /\
  destructions (delivered c props names) = [].
Proof.
  induction names as [|n names [IH1 IH2]]; [done|]. simpl.
  rewrite constructions_app, destructions_app, IH1, IH2.
  by destruct (is_defined (get props n)).
Qed.

Lemma forwarded_quiet c props prev names :
  constructions (forwarded c props prev names) = [] /\
  destructions (forwarded c props prev names) = [].
Proof.
  induction names as [|n names [IH1 IH2]]; [done|]. simpl.
  rewrite constructions_app, destructions_app, IH1, IH2.
  by destruct (object_is _ _), (is_defined (get props n)).
Qed.

Lemma mount_spec host props :
  exists w slots l,
    mount v props (init (Some host)) = (w, Ok slots) /\
    mounted v props slots w 0 /\
    log w = CNew 0 host (constructor_options props)
              :: delivered 0 props (propertyNames v) ++ l /\
    Forall (fun x => is_wiring x = true) l.
Proof.
  unfold mount. rewrite render_ok.
  set (w0 := World (Some host) (Some 0)
               [CNew 0 host (constructor_options props)] [] [0] 1).
  destruct (handler_mount v props event_table
              (emit (delivered 0 props (propertyNames v)) w0))
    as (w&hs&l&Hrun&(Hd&Hc&Ha&Hl)&Hw&Hhs).
  exists w, (Slot [] (Some (Destroy 0))
               :: map (property_slot props) (propertyNames v) ++ hs), l.
  split; [|split; [|split; [|done]]].
  - change (commit_mount (?e :: ?es) (init (Some host)))
      with (bind (commit_mount es)
              (fun r => ret (Slot [] (Some (Destroy 0)) :: r)) w0).
    unfold bind. rewrite commit_mount_app.
    rewrite (property_mount 0) by done. by rewrite Hrun.
  - exists hs. split; [done|]. split; [done|].
    destruct (wiring_quiet l Hw) as (Hq1&Hq2&_).
    destruct (delivered_quiet 0 props (propertyNames v)) as [Hq3 Hq4].
    rewrite Hc, Ha, Hl. simpl.
    rewrite !constructions_app, !destructions_app, Hq1, Hq2, Hq3, Hq4.
    done.
  - by rewrite Hl.
Qed.

Lemma cleanup_changed_skip e s es ss w :
  areHookInputsEqual (deps e) (slot_deps s) = true ->
  commit_cleanup_changed (e :: es) (s :: ss) w
  = commit_cleanup_changed es ss w.
Proof. intros H. simpl. by rewrite H. Qed.

Lemma create_changed_skip e s es ss w :
  areHookInputsEqual (deps e) (slot_deps s) = true ->
  commit_create_changed (e :: es) (s :: ss) w
  = match commit_create_changed es ss w with
    | (w', Ok r) => (w', Ok (s :: r))
    | (w', Throw x) => (w', Throw x)
    end.
Proof. intros H. simpl. by rewrite H. Qed.

Lemma steps_nil w l : steps w w l -> l = [].
Proof.
  intros (_&_&_&H). apply (app_inv_head (log w)). by rewrite app_nil_r.
Qed.

Lemma update_spec prev props slots w c :
  mounted v prev slots w c ->
  exists w' slots' l1 l2,
    update v props slots w = (w', Ok slots') /\
    mounted v props slots' w' c /\
    log w' = log w ++ l1 ++ forwarded c props prev (propertyNames v) ++ l2 /\
    Forall (fun x => is_wiring x = true) l1 /\
    Forall (fun x => is_wiring x = true) l2 /\
    (Forall (fun ef => get props ef.2 = get prev ef.2) event_table ->
     l1 = [] /\ l2 = []).
Proof.
  intros (hs & -> & Hhs & Hc & Ha & Hcons & Hdes).
  unfold update. rewrite render_ok.
  destruct (handler_cleanup v props prev event_table hs w Hhs)
    as (w1&l1&Hrun1&Hs1&Hw1).
  set (fw := forwarded c props prev (propertyNames v)).
  destruct (handler_create v props prev event_table hs (emit fw w1) Hhs)
    as (w2&hs'&l2&Hrun2&Hs2&Hw2&Hhs').
  assert (Hc1 : controlRef w1 = Some c) by (destruct Hs1 as (_&->&_); done).
  exists w2, (Slot [] (Some (Destroy c))
                :: map (property_slot props) (propertyNames v) ++ hs'), l1, l2.
  pose proof (steps_trans _ _ _ _ _ Hs1
                (steps_trans _ _ _ _ _ (steps_emit fw w1) Hs2))
    as (Hd3&Hc3&Ha3&Hl3).
  split; [|split; [|split; [done|split; [done|split; [done|]]]]].
  - subst fw. unfold bind. rewrite cleanup_changed_skip by done.
    rewrite commit_cleanup_changed_app by (by rewrite !length_map).
    rewrite property_cleanup, Hrun1.
    rewrite create_changed_skip by done.
    rewrite commit_create_changed_app by (by rewrite !length_map).
    rewrite (property_create c) by done. by rewrite Hrun2.
  - exists hs'. split; [done|]. split; [done|].
    destruct (wiring_quiet l1 Hw1) as (Hq1&Hq2&_).
    destruct (wiring_quiet l2 Hw2) as (Hq3&Hq4&_).
    destruct (forwarded_quiet c props prev (propertyNames v)) as [Hq5 Hq6].
    rewrite Hc3, Ha3, Hl3, Hc, Ha.
    rewrite !constructions_app, !destructions_app.
    fold fw in Hq5, Hq6.
    rewrite Hcons, Hdes, Hq1, Hq2, Hq3, Hq4, Hq5, Hq6. done.
  - intros Hsame.
    destruct (handler_same v props prev event_table hs w Hhs Hsame)
      as [Hk1 _].
    rewrite Hk1 in Hrun1. injection Hrun1 as <-.
    pose proof (steps_nil _ _ Hs1) as ->. split; [done|].
    destruct (handler_same v props prev event_table hs (emit fw w) Hhs Hsame)
      as [_ Hk2].
    rewrite Hk2 in Hrun2. injection Hrun2 as <- <-.
    by apply (steps_nil (emit fw w)).
Qed.

Lemma unmount_spec props slots w c :
  mounted v props slots w c ->
  exists w' l,
    unmount slots w = (w', Ok tt) /\
    log w' = log w ++ CDestroy c :: l /\
    Forall (fun x => is_wiring x = true) l /\
    alive w' = [] /\ controlRef w' = Some c.
Proof.
  intros (hs & -> & Hhs & Hc & Ha & Hcons & Hdes).
  set (w0 := World (divRef w) (controlRef w) (log w ++ [CDestroy c])
               (subscriptions w) [] (fresh w)).
  destruct (handler_unmount props event_table hs w0 Hhs)
    as (w1&l&Hrun&(Hd1&Hc1&Ha1&Hl1)&Hw1).
  exists w1, l.
  split; [|split; [|split; [done|split; [done|by rewrite Hc1]]]].
  - unfold unmount.
    change (commit_unmount (?s :: ?ss) w)
      with (bind (dollar_destroy c) (fun _ => commit_unmount ss) w).
    unfold bind, dollar_destroy. rewrite Ha. simpl.
    rewrite filter_cons_False by (intros H; by apply H).
    rewrite filter_nil. fold w0.
    rewrite commit_unmount_app.
    assert (Hp : forall names w2,
      commit_unmount (map (property_slot props) names) w2 = (w2, Ok tt)).
    { induction names as [|n names IH]; intros w2; [done|]. simpl.
      unfold bind. simpl. apply IH. }
    by rewrite Hp.
  - rewrite Hl1. simpl. by rewrite <- app_assoc.
Qed.

Lemma invoke_spec props slots w c name args w' r :
  mounted v props slots w c ->
  invoke v name args w = (w', Ok r) ->
  exists x, is_method x = true /\ w' = emit [x] w /\
            mounted v props slots w' c.
Proof.
  intros (hs & -> & Hhs & Hc & Ha & Hcons & Hdes) Hrun.
  assert (Hcall : forall m, (forall k, is_method (m k) = true) ->
    optional_call m w = (w', Ok r) ->
    exists x, is_method x = true /\ w' = emit [x] w /\
      mounted v props
        (Slot [] (Some (Destroy c))
           :: map (property_slot props) (propertyNames v) ++ hs) w' c).
  { intros m Hm. unfold optional_call, bind, get_controlRef. rewrite Hc.
    rewrite record_emit. unfold ret. intros [= <- <-].
    exists (m c). split; [done|]. split; [done|].
    exists hs. split; [done|]. split; [done|]. simpl.
    rewrite constructions_app, destructions_app, Hcons, Hdes.
    specialize (Hm c). by destruct (m c). }
  unfold invoke in Hrun.
  destruct v; simpl in Hrun;
    repeat (case_bool_decide; [by eapply Hcall; [|exact Hrun]|]);
    discriminate.
Qed.

Lemma reachable_mounted props slots w :
  reachable v props slots w -> mounted v props slots w 0.
Proof.
  induction 1 as [host props slots w Hrun
                 |prev props slots w slots' w' _ IH Hrun
                 |props slots w name args w' r _ IH Hrun].
  - destruct (mount_spec host props) as (w1&s1&l&Hm&Hmounted&_).
    rewrite Hm in Hrun. by injection Hrun as <- <-.
  - destruct (update_spec prev props slots w 0 IH)
      as (w1&s1&l1&l2&Hu&Hmounted&_).
    rewrite Hu in Hrun. by injection Hrun as <- <-.
  - by destruct (invoke_spec props slots w 0 name args w' r IH Hrun)
      as (x&_&_&Hmounted).
Qed.

End Commit.

(** ** What the property effects forward *)

Section Forwarding.
Variables (c : control) (props prev : props_bag).

Lemma is_defined_true x : is_defined x = true <-> x <> VUndefined.
Proof. by destruct x. Qed.

Lemma propertyNames_NoDup v : NoDup (propertyNames v).
Proof. destruct v; apply (bool_decide_unpack _); by vm_compute. Qed.

Lemma delivered_elem k n x names :
  CSet k n x ∈ delivered c props names ->
  k = c /\ n ∈ names /\ x = get props n /\ x <> VUndefined.
Proof.
  unfold delivered. rewrite list_elem_of_In, in_flat_map.
  intros (n' & Hin & Hx). apply list_elem_of_In in Hin.
  destruct (is_defined (get props n')) eqn:Hd; [|by destruct Hx].
  destruct Hx as [[= <- <- <-]|[]]. by apply is_defined_true in Hd.
Qed.

Lemma forwarded_elem k n x names :
  CSet k n x ∈ forwarded c props prev names ->
  k = c /\ n ∈ names /\ x = get props n /\ x <> VUndefined /\
  get props n <> get prev n.
Proof.
  unfold forwarded. rewrite list_elem_of_In, in_flat_map.
  intros (n' & Hin & Hx). apply list_elem_of_In in Hin.
  unfold object_is in Hx. case_bool_decide as Hne; [by destruct Hx|].
  destruct (is_defined (get props n')) eqn:Hd; [|by destruct Hx].
  destruct Hx as [[= <- <- <-]|[]]. by apply is_defined_true in Hd.
Qed.

Lemma forwarded_none names :
  (forall k, k ∈ names -> get props k = get prev k) ->
  forwarded c props prev names = [].
Proof.
  induction names as [|n names IH]; intros Hsame; [done|]. simpl.
  unfold object_is. rewrite bool_decide_eq_true_2 by (apply Hsame; left).
  apply IH. intros k Hk. apply Hsame. by right.
Qed.

Lemma forwarded_single names name :
  NoDup names -> name ∈ names ->
  get props name <> get prev name ->
  get props name <> VUndefined ->
  (forall k, k ∈ names -> k <> name -> get props k = get prev k) ->
  forwarded c props prev names = [CSet c name (get props name)].
Proof.
  intros Hnd. induction Hnd as [|n names Hn Hnd IH]; intros Hin Hch Hdef Hsame.
  - by apply elem_of_nil in Hin.
  - simpl. destruct (decide (n = name)) as [->|Hne].
    + unfold object_is. rewrite bool_decide_eq_false_2 by done.
      apply is_defined_true in Hdef. rewrite Hdef. simpl.
      rewrite forwarded_none; [done|].
      intros k Hk. apply Hsame; [by right|]. by intros ->.
    + unfold object_is.
      rewrite bool_decide_eq_true_2 by (apply Hsame; [left|done]).
      simpl. apply IH; [|done|done|].
      * apply elem_of_cons in Hin as [->|Hin]; done.
      * intros k Hk. apply Hsame. by right.
Qed.

Lemma sets_delivered names :
  sets (delivered c props names)
  = omap (fun n => if is_defined (get props n)
                   then Some (n, get props n) else None) names.
Proof.
  induction names as [|n names IH]; [done|]. simpl.
  rewrite sets_app, IH. by destruct (is_defined (get props n)).
Qed.

End Forwarding.

Lemma scenario_reachable v : reachable v props1 (slots1 v) (world1 v).
Proof.
  apply (reach_mount v host1). unfold slots1, world1.
  destruct (mount_spec v host1 props1) as (w&slots&l&->&_). done.
Qed.

Lemma typed_reachable_reachable v props slots w :
  typed_reachable v props slots w -> reachable v props slots w.
Proof.
  induction 1 as [host props slots w _ Hrun
                 |prev props slots w slots' w' _ IH _ Hrun
                 |props slots w name args w' r _ IH Hrun].
  - by apply (reach_mount v host).
  - by apply (reach_update v prev props slots w).
  - by apply (reach_invoke v props slots w name args w' r).
Qed.

Lemma scenario_typed v : typed_reachable v props1 (slots1 v) (world1 v).
Proof.
  apply (typed_mount v host1).
  - apply (bool_decide_unpack _). by vm_compute.
  - unfold slots1, world1.
    destruct (mount_spec v host1 props1) as (w&slots&l&->&_). done.
Qed.

(** ** The subscriptions of the extended variant *)

Section Subscriptions.

Lemma filter_type_id (l : list subscription) e id :
  filter (fun s => sub_type s = e) (filter (fun s => sub_id s ≠ id) l)
  = filter (fun s => sub_id s ≠ id) (filter (fun s => sub_type s = e) l).
Proof.
  rewrite !list_filter_filter. apply list_filter_iff. intros s. tauto.
Qed.

Lemma filter_all {A} (P : A -> Prop) `{!forall x, Decision (P x)} l :
  Forall P l -> filter P l = l.
Proof.
  induction 1 as [|x l Hx _ IH]; [done|].
  by rewrite filter_cons_True, IH.
Qed.

Lemma ids_injective (l : list subscription) s1 s2 :
  NoDup (sub_id <$> l) -> s1 ∈ l -> s2 ∈ l -> sub_id s1 = sub_id s2 ->
  s1 = s2.
Proof.
  induction l as [|s l IH]; intros Hnd H1 H2 Heq.
  - by apply elem_of_nil in H1.
  - rewrite fmap_cons in Hnd. apply NoDup_cons in Hnd as [Hs Hnd].
    apply elem_of_cons in H1 as [->|H1]; apply elem_of_cons in H2 as [->|H2].
    + done.
    + destruct Hs. rewrite Heq. by apply list_elem_of_fmap_2.
    + destruct Hs. rewrite <- Heq. by apply list_elem_of_fmap_2.
    + by apply IH.
Qed.

(** Calling the unsubscribe function of the one subscription to [e]. *)
Lemma unsubscribe_spec e id c h w :
  ids_ok w ->
  subscribed e w = [Subscription id c e h] ->
  exists w',
    unsubscribe id w = (w', Ok tt) /\
    ids_ok w' /\ subscribed e w' = [] /\
    (forall e', e' <> e -> subscribed e' w' = subscribed e' w) /\
    controlRef w' = controlRef w /\ log w' = log w ++ [CUnsubscribe id].
Proof.
  intros [Hnd Hlt] Hsub. eexists. split; [reflexivity|].
  assert (Hin : Subscription id c e h ∈ subscriptions w).
  { assert (H : Subscription id c e h ∈ subscribed e w)
      by (rewrite Hsub; left).
    by apply list_elem_of_filter in H as [_ H]. }
  split; [|split; [|split; [|done]]].
  - split; simpl.
    + eapply sublist_NoDup; [exact Hnd|].
      apply fmap_sublist, sublist_filter.
    + apply Forall_forall. intros s [_ Hs]%list_elem_of_filter.
      rewrite Forall_forall in Hlt. by apply Hlt.
  - unfold subscribed. simpl. rewrite filter_type_id.
    fold (subscribed e w). rewrite Hsub.
    by rewrite filter_cons_False by (simpl; intros H; by apply H).
  - intros e' Hne. unfold subscribed. simpl. rewrite filter_type_id.
    apply filter_all, Forall_forall. intros s [Ht Hs]%list_elem_of_filter Hid.
    apply Hne. rewrite <- Ht.
    by rewrite (ids_injective _ s (Subscription id c e h) Hnd Hs Hin Hid).
Qed.

(** Subscribing a callback to [e]. *)
Lemma dollar_on_spec e c h w :
  ids_ok w ->
  exists w',
    dollar_on c e (Some h) w = (w', Ok (Unsubscribe (fresh w))) /\
    ids_ok w' /\
    subscribed e w' = subscribed e w ++ [Subscription (fresh w) c e h] /\
    (forall e', e' <> e -> subscribed e' w' = subscribed e' w) /\
    controlRef w' = controlRef w /\ log w' = log w ++ [COn c e (Some h)].
Proof.
  intros [Hnd Hlt]. eexists. split; [reflexivity|].
  split; [|split; [|split; [|done]]].
  - split; simpl.
    + rewrite fmap_app. apply NoDup_app. split; [done|]. split.
      * intros i (s&->&Hs)%list_elem_of_fmap Hi. simpl in Hi.
        apply list_elem_of_singleton in Hi.
        rewrite Forall_forall in Hlt. specialize (Hlt s Hs). lia.
      * apply NoDup_singleton.
    + apply Forall_app. split.
      * eapply Forall_impl; [exact Hlt|]. simpl. lia.
      * constructor; [simpl; lia|constructor].
  - unfold subscribed. simpl. rewrite filter_app.
    by rewrite (filter_cons_True _ (Subscription _ _ _ _)) by done.
  - intros e' Hne. unfold subscribed. simpl. rewrite filter_app.
    rewrite (filter_cons_False _ (Subscription _ _ _ _)) by (simpl; congruence).
    by rewrite filter_nil, app_nil_r.
Qed.

Lemma Forall2_impl_elem {A B} (P Q : A -> B -> Prop) l k :
  Forall2 P l k -> (forall x y, x ∈ l -> P x y -> Q x y) -> Forall2 Q l k.
Proof.
  induction 1 as [|x y l k Hxy _ IH]; intros Himpl; constructor.
  - apply Himpl; [left|done].
  - apply IH. intros x' y' Hx'. apply Himpl. by right.
Qed.

Lemma live_transport props c w w' ef s :
  subscribed ef.1 w' = subscribed ef.1 w ->
  live props c w ef s -> live props c w' ef s.
Proof. unfold live. by intros ->. Qed.

Lemma cleaned_transport prev props c w w' ef s :
  subscribed ef.1 w' = subscribed ef.1 w ->
  cleaned prev props c w ef s -> cleaned prev props c w' ef s.
Proof. unfold cleaned, live. by intros ->. Qed.

Section Extended.
Variables (props prev : props_bag) (c : control).

(** The first run of the effect of one event. *)
Lemma extended_create_head e fn w :
  subscribed e w = [] -> ids_ok w -> controlRef w = Some c ->
  exists w0 f l,
    create (event_effect Extended props e fn) w = (w0, Ok f) /\
    live props c w0 (e, fn) (Slot [get props fn] f) /\
    ids_ok w0 /\ controlRef w0 = Some c /\
    (forall e', e' <> e -> subscribed e' w0 = subscribed e' w) /\
    log w0 = log w ++ l /\ Forall (fun x => is_on x = true) l.
Proof.
  intros Hsub Hids Hc. unfold event_effect, live. simpl.
  destruct (truthy (get props fn)) eqn:Ht.
  - destruct (dollar_on_spec e c (get props fn) w Hids)
      as (w0&Hrun&Hids0&Hsub0&Hother&Hc0&Hlog).
    exists w0, (Some (Unsubscribe (fresh w))), [COn c e (Some (get props fn))].
    unfold bind, get_controlRef. rewrite Hc, Hrun.
    split; [done|]. split; [|split; [done|split; [congruence|]]].
    + split; [done|]. exists (fresh w). by rewrite Hsub0, Hsub.
    + split; [done|]. split; [done|]. by repeat constructor.
  - exists w, None, []. split; [done|]. split; [done|]. split; [done|].
    split; [done|]. split; [done|]. by rewrite app_nil_r.
Qed.

(** The cleanup phase of a commit, for one event. *)
Lemma extended_cleanup_head e fn s w :
  live prev c w (e, fn) s -> ids_ok w ->
  exists w0 l,
    (if areHookInputsEqual [get props fn] (slot_deps s) then ret tt
     else run_slot_cleanup s) w = (w0, Ok tt) /\
    cleaned prev props c w0 (e, fn) s /\
    ids_ok w0 /\ controlRef w0 = controlRef w /\
    (forall e', e' <> e -> subscribed e' w0 = subscribed e' w) /\
    log w0 = log w ++ l /\ Forall (fun x => is_unsubscribe x = true) l.
Proof.
  intros Hlive Hids. pose proof Hlive as [Hd Hs]. simpl in Hd, Hs.
  rewrite Hd. simpl. unfold object_is, cleaned. simpl.
  rewrite andb_true_r. case_bool_decide as Heq.
  - exists w, []. split; [done|]. split; [done|]. split; [done|].
    split; [done|]. split; [done|]. by rewrite app_nil_r.
  - unfold run_slot_cleanup. destruct (truthy (get prev fn)).
    + destruct Hs as (id&->&Hsub). simpl.
      destruct (unsubscribe_spec e id c (get prev fn) w Hids Hsub)
        as (w0&Hrun&Hids0&Hsub0&Hother&Hc0&Hlog).
      exists w0, [CUnsubscribe id]. split; [done|]. split; [done|].
      split; [done|]. split; [done|]. split; [done|]. split; [done|].
      by repeat constructor.
    + destruct Hs as [-> Hsub]. exists w, []. split; [done|].
      split; [done|]. split; [done|]. split; [done|]. split; [done|].
      by rewrite app_nil_r.
Qed.

(** The second phase of a commit, for one event. *)
Lemma extended_rerun_head e fn s w :
  cleaned prev props c w (e, fn) s -> ids_ok w -> controlRef w = Some c ->
  exists w0 s' l,
    (if areHookInputsEqual [get props fn] (slot_deps s) then ret s
     else f <- create (event_effect Extended props e fn) ;;
          ret (Slot [get props fn] f)) w = (w0, Ok s') /\
    live props c w0 (e, fn) s' /\
    ids_ok w0 /\ controlRef w0 = Some c /\
    (forall e', e' <> e -> subscribed e' w0 = subscribed e' w) /\
    log w0 = log w ++ l /\ Forall (fun x => is_on x = true) l.
Proof.
  unfold cleaned. simpl. intros Hcl Hids Hc.
  case_bool_decide as Heq.
  - pose proof Hcl as [Hd _]. simpl in Hd. rewrite Hd. simpl.
    unfold object_is. rewrite bool_decide_eq_true_2 by done. simpl.
    exists w, s, []. split; [done|]. split.
    { unfold live in *. simpl in *. by rewrite Heq. }
    split; [done|]. split; [done|]. split; [done|]. by rewrite app_nil_r.
  - destruct Hcl as [Hd Hsub]. rewrite Hd. simpl.
    unfold object_is. rewrite bool_decide_eq_false_2 by done. simpl.
    destruct (extended_create_head e fn w Hsub Hids Hc)
      as (w0&f&l&Hrun&Hrest).
    exists w0, (Slot [get props fn] f), l.
    unfold event_effect in Hrun. simpl in Hrun.
    unfold bind at 1. rewrite Hrun. by split.
Qed.

Lemma not_in_tail_ne (tbl : list (string * string)) e ef :
  e ∉ tbl.*1 -> ef ∈ tbl -> ef.1 <> e.
Proof. intros He Hef <-. apply He. by apply list_elem_of_fmap_2. Qed.

Lemma extended_mount_handlers tbl w :
  NoDup tbl.*1 ->
  Forall (fun ef => subscribed ef.1 w = []) tbl ->
  ids_ok w -> controlRef w = Some c ->
  exists w' hs l,
    commit_mount (handler_effects Extended props tbl) w = (w', Ok hs) /\
    Forall2 (live props c w') tbl hs /\
    ids_ok w' /\ controlRef w' = Some c /\
    (forall e, e ∉ tbl.*1 -> subscribed e w' = subscribed e w) /\
    log w' = log w ++ l /\ Forall (fun x => is_on x = true) l.
Proof.
  revert w. induction tbl as [|[e fn] tbl IH]; intros w Hnd Hsub Hids Hc.
  - exists w, [], []. split; [done|]. split; [constructor|].
    split; [done|]. split; [done|]. split; [done|]. by rewrite app_nil_r.
  - rewrite fmap_cons in Hnd. apply NoDup_cons in Hnd as [He Hnd].
    apply Forall_cons in Hsub as [Hsube Hsub]. simpl in He, Hsube.
    destruct (extended_create_head e fn w Hsube Hids Hc)
      as (w0&f&l0&Hrun&Hlive&Hids0&Hc0&Hother0&Hlog0&Hl0).
    destruct (IH w0) as (w1&hs&l1&Hrest&Hhs&Hids1&Hc1&Hother1&Hlog1&Hl1);
      [done| |done|done|].
    { apply Forall_forall. intros ef Hef.
      rewrite Hother0 by by eapply not_in_tail_ne.
      rewrite Forall_forall in Hsub. by apply Hsub. }
    exists w1, (Slot [get props fn] f :: hs), (l0 ++ l1).
    split; [|split; [|split; [done|split; [done|split; [|split]]]]].
    + simpl. unfold event_effect in Hrun. simpl in Hrun.
      unfold bind at 1. rewrite Hrun. unfold bind, ret.
      by rewrite Hrest.
    + constructor; [|done]. eapply live_transport; [|exact Hlive].
      by apply Hother1.
    + intros e' [Hne Hin]%not_elem_of_cons.
      rewrite Hother1 by done. by apply Hother0.
    + by rewrite Hlog1, Hlog0, <- app_assoc.
    + by apply Forall_app.
Qed.

Lemma extended_cleanup_handlers tbl hs w :
  NoDup tbl.*1 ->
  Forall2 (live prev c w) tbl hs -> ids_ok w ->
  exists w' l,
    commit_cleanup_changed (handler_effects Extended props tbl) hs w
    = (w', Ok tt) /\
    Forall2 (cleaned prev props c w') tbl hs /\
    ids_ok w' /\ controlRef w' = controlRef w /\
    (forall e, e ∉ tbl.*1 -> subscribed e w' = subscribed e w) /\
    log w' = log w ++ l /\ Forall (fun x => is_unsubscribe x = true) l.
Proof.
  intros Hnd Hlive. revert hs w Hnd Hlive.
  induction tbl as [|[e fn] tbl IH]; intros hs w Hnd Hlive Hids.
  - apply Forall2_nil_inv_l in Hlive as ->.
    exists w, []. split; [done|]. split; [constructor|].
    split; [done|]. split; [done|]. split; [done|]. by rewrite app_nil_r.
  - apply Forall2_cons_inv_l in Hlive as (s&hs'&Hs&Hhs&->).
    rewrite fmap_cons in Hnd. apply NoDup_cons in Hnd as [He Hnd].
    simpl in He.
    destruct (extended_cleanup_head e fn s w Hs Hids)
      as (w0&l0&Hrun&Hcl&Hids0&Hc0&Hother0&Hlog0&Hl0).
    destruct (IH hs' w0) as (w1&l1&Hrest&Hcls&Hids1&Hc1&Hother1&Hlog1&Hl1);
      [done| |done|].
    { eapply Forall2_impl_elem; [exact Hhs|]. intros ef s' Hef.
      apply live_transport. apply Hother0. by eapply not_in_tail_ne. }
    exists w1, (l0 ++ l1).
    split; [|split; [|split; [done|split; [congruence|split; [|split]]]]].
    + simpl. unfold bind at 1. simpl in Hrun. rewrite Hrun.
      by rewrite Hrest.
    + constructor; [|done]. eapply cleaned_transport; [|exact Hcl].
      by apply Hother1.
    + intros e' [Hne Hin]%not_elem_of_cons.
      rewrite Hother1 by done. by apply Hother0.
    + by rewrite Hlog1, Hlog0, <- app_assoc.
    + by apply Forall_app.
Qed.

Lemma extended_rerun_handlers tbl hs w :
  NoDup tbl.*1 ->
  Forall2 (cleaned prev props c w) tbl hs ->
  ids_ok w -> controlRef w = Some c ->
  exists w' hs' l,
    commit_create_changed (handler_effects Extended props tbl) hs w
    = (w', Ok hs') /\
    Forall2 (live props c w') tbl hs' /\
    ids_ok w' /\ controlRef w' = Some c /\
    (forall e, e ∉ tbl.*1 -> subscribed e w' = subscribed e w) /\
    log w' = log w ++ l /\ Forall (fun x => is_on x = true) l.
Proof.
  intros Hnd Hcl. revert hs w Hnd Hcl.
  induction tbl as [|[e fn] tbl IH]; intros hs w Hnd Hcl Hids Hc.
  - apply Forall2_nil_inv_l in Hcl as ->.
    exists w, [], []. split; [done|]. split; [constructor|].
    split; [done|]. split; [done|]. split; [done|]. by rewrite app_nil_r.
  - apply Forall2_cons_inv_l in Hcl as (s&hs'&Hs&Hhs&->).
    rewrite fmap_cons in Hnd. apply NoDup_cons in Hnd as [He Hnd].
    simpl in He.
    destruct (extended_rerun_head e fn s w Hs Hids Hc)
      as (w0&s0&l0&Hrun&Hlive&Hids0&Hc0&Hother0&Hlog0&Hl0).
    destruct (IH hs' w0)
      as (w1&hs1&l1&Hrest&Hlives&Hids1&Hc1&Hother1&Hlog1&Hl1);
      [done| |done|done|].
    { eapply Forall2_impl_elem; [exact Hhs|]. intros ef s' Hef.
      apply cleaned_transport. apply Hother0. by eapply not_in_tail_ne. }
    exists w1, (s0 :: hs1), (l0 ++ l1).
    split; [|split; [|split; [done|split; [done|split; [|split]]]]].
    + simpl. unfold event_effect in Hrun. simpl in Hrun.
      unfold bind at 1. rewrite Hrun. unfold bind, ret.
      by rewrite Hrest.
    + constructor; [|done]. eapply live_transport; [|exact Hlive].
      by apply Hother1.
    + intros e' [Hne Hin]%not_elem_of_cons.
      rewrite Hother1 by done. by apply Hother0.
    + by rewrite Hlog1, Hlog0, <- app_assoc.
    + by apply Forall_app.
Qed.

End Extended.

Lemma event_table_NoDup : NoDup event_table.*1.
Proof. apply (bool_decide_unpack _). by vm_compute. Qed.

Lemma extended_mount_spec host props :
  exists w slots,
    mount Extended props (init (Some host)) = (w, Ok slots) /\
    extended_mounted props slots w.
Proof.
  unfold mount. rewrite render_ok.
  set (w0 := World (Some host) (Some 0)
               [CNew 0 host (constructor_options props)] [] [0] 1).
  set (w1 := emit (delivered 0 props (propertyNames Extended)) w0).
  assert (Hids : ids_ok w1) by (split; simpl; constructor).
  destruct (extended_mount_handlers props 0 event_table w1)
    as (w&hs&l&Hrun&Hlive&Hids'&Hc&_);
    [apply event_table_NoDup| |done|done|].
  { apply Forall_forall. by intros ef _. }
  exists w, (Slot [] (Some (Destroy 0))
               :: map (property_slot props) (propertyNames Extended) ++ hs).
  split; [|by exists hs].
  change (commit_mount (?e :: ?es) (init (Some host)))
    with (bind (commit_mount es)
            (fun r => ret (Slot [] (Some (Destroy 0)) :: r)) w0).
  unfold bind. rewrite commit_mount_app.
  rewrite (property_mount 0) by done. fold w1. by rewrite Hrun.
Qed.

Lemma extended_update_spec prev props slots w :
  extended_mounted prev slots w ->
  exists w' slots' l1 l2,
    update Extended props slots w = (w', Ok slots') /\
    extended_mounted props slots' w' /\
    log w' = log w ++ l1
               ++ forwarded 0 props prev (propertyNames Extended) ++ l2 /\
    Forall (fun x => is_unsubscribe x = true) l1 /\
    Forall (fun x => is_on x = true) l2.
Proof.
  intros (hs & -> & Hlive & Hids & Hc).
  unfold update. rewrite render_ok.
  destruct (extended_cleanup_handlers props prev 0 event_table hs w
              event_table_NoDup Hlive Hids)
    as (w1&l1&Hrun1&Hcl&Hids1&Hc1&_&Hlog1&Hl1).
  rewrite Hc in Hc1.
  destruct (extended_rerun_handlers props prev 0 event_table hs
              (emit (forwarded 0 props prev (propertyNames Extended)) w1)
              event_table_NoDup)
    as (w2&hs'&l2&Hrun2&Hlive2&Hids2&Hc2&_&Hlog2&Hl2); [|done|done|].
  { eapply Forall2_impl; [exact Hcl|]. intros ef s.
    by apply cleaned_transport. }
  exists w2, (Slot [] (Some (Destroy 0))
                :: map (property_slot props) (propertyNames Extended) ++ hs'),
         l1, l2.
  split; [|split; [by exists hs'|split; [|done]]].
  - unfold bind. rewrite cleanup_changed_skip by done.
    rewrite commit_cleanup_changed_app by (by rewrite !length_map).
    rewrite property_cleanup, Hrun1.
    rewrite create_changed_skip by done.
    rewrite commit_create_changed_app by (by rewrite !length_map).
    rewrite (property_create 0) by done. by rewrite Hrun2.
  - rewrite Hlog2. simpl. by rewrite Hlog1, <- !app_assoc.
Qed.

Lemma extended_reachable props slots w :
  reachable Extended props slots w -> extended_mounted props slots w.
Proof.
  induction 1 as [host props slots w Hrun
                 |prev props slots w slots' w' _ IH Hrun
                 |props slots w name args w' r Hreach IH Hrun].
  - destruct (extended_mount_spec host props) as (w1&s1&Hm&Hext).
    rewrite Hm in Hrun. by injection Hrun as <- <-.
  - destruct (extended_update_spec prev props slots w IH)
      as (w1&s1&l1&l2&Hu&Hext&_).
    rewrite Hu in Hrun. by injection Hrun as <- <-.
  - apply reachable_mounted in Hreach.
    destruct (invoke_spec Extended props slots w 0 name args w' r Hreach Hrun)
      as (x&_&->&_).
    destruct IH as (hs&Hslots&Hlive&Hids&Hc). by exists hs.
Qed.

(** X4: In the extended variant, when the callbacks of every render so far
    were functions or [undefined], in every state between mount and unmount
    and for every event name, the wrapped instance holds exactly one
    subscription, which calls the callback of the last render, when that
    render gave a callback, and none when it gave none; and a commit first
    calls unsubscribe functions only, then forwards the options, then
    subscribes: the subscription of a replaced callback is removed before
    the new one is installed. *)
Theorem extended_variant_keeps_one_subscription_per_callback :
  forall props slots w,
    typed_reachable Extended props slots w ->
    Forall (fun ef =>
              map sub_callback (subscribed ef.1 w)
              = if truthy (get props ef.2) then [get props ef.2] else [])
           event_table /\
    forall next, exists w' slots' l1 l2,
      update Extended next slots w = (w', Ok slots') /\
      log w' = log w ++ l1
                 ++ forwarded 0 next props (propertyNames Extended) ++ l2 /\
      Forall (fun x => is_unsubscribe x = true) l1 /\
      Forall (fun x => is_on x = true) l2.
Proof.
  intros props slots w Hreach. apply typed_reachable_reachable in Hreach.
  apply extended_reachable in Hreach. split.
  - destruct Hreach as (hs&_&Hlive&_).
    induction Hlive as [|ef s tbl hs' [_ Hs] _ IH]; constructor; [|done].
    destruct (truthy (get props ef.2)).
    + destruct Hs as (id&_&->). done.
    + destruct Hs as [_ ->]. done.
  - intros next.
    destruct (extended_update_spec props next slots w Hreach)
      as (w'&slots'&l1&l2&Hrun&_&Hlog&Hl1&Hl2).
    by exists w', slots', l1, l2.
Qed.

Lemma extended_scenario :
  Forall (fun ef =>
            map sub_callback (subscribed ef.1 (world1 Extended))
            = if truthy (get props1 ef.2) then [get props1 ef.2] else [])
         event_table /\
  forall next, exists w' slots' l1 l2,
    update Extended next (slots1 Extended) (world1 Extended) = (w', Ok slots') /\
    log w' = log (world1 Extended) ++ l1
               ++ forwarded 0 next props1 (propertyNames Extended) ++ l2 /\
    Forall (fun x => is_unsubscribe x = true) l1 /\
    Forall (fun x => is_on x = true) l2.
Proof.
  apply (extended_variant_keeps_one_subscription_per_callback props1).
  apply scenario_typed.
Defined.

End Subscriptions.

(** * The claims *)

Lemma constructor_options_lookup props k :
  constructor_options props !! k
  = if bool_decide (k ∈ callbackNames) then None else props !! k.
Proof.
  unfold constructor_options. generalize callbackNames as names.
  intros names. revert props.
  induction names as [|fn names IH]; intros props; simpl.
  - done.
  - rewrite IH. destruct (decide (k = fn)) as [->|Hne].
    + rewrite lookup_delete_eq.
      rewrite (bool_decide_eq_true_2 (fn ∈ fn :: names)) by left.
      by case_bool_decide.
    + rewrite lookup_delete_ne by done.
      case_bool_decide as Hin.
      * by rewrite bool_decide_eq_true_2 by (by right).
      * rewrite bool_decide_eq_false_2; [done|].
        intros [->|H]%elem_of_cons; done.
Qed.

(** C9: for every enumerated event name, [getEventFnName] returns ["on"]
    followed by the name with its first letter, a lower-case letter, replaced
    by the upper-case letter 32 code points below and the rest of the name
    unchanged; "select" gives "onSelect" and "queryChange" gives
    "onQueryChange"; these are the property names the event loop reads. *)
Theorem C9_callback_name_capitalizes_event_name :
  Forall (fun name =>
            exists c rest,
              name = String c rest /\
              (97 <= N_of_ascii c <= 122)%N /\
              getEventFnName name
              = Ok ("on" +:+ String (ascii_of_N (N_of_ascii c - 32)) rest))
         eventNames /\
  getEventFnName "select" = Ok "onSelect" /\
  getEventFnName "queryChange" = Ok "onQueryChange" /\
  map getEventFnName eventNames = map Ok callbackNames /\
  event_table = zip eventNames callbackNames /\
  forall v props,
    event_effects v props eventNames = Ok (handler_effects v props event_table) /\
    map deps (handler_effects v props event_table)
    = map (fun fn => [get props fn]) callbackNames.
Proof.
  split; [|by repeat split].
  repeat constructor;
    (eexists _, _; split; [reflexivity|]; split; [by vm_compute|reflexivity]).
Qed.

(** C4: the property bag the constructor of the wrapped instance receives
    is the props bag without the callback properties: every callback name
    is absent from it, every other key has the value it has in the props.
    It is the only construction of the mount. *)
Theorem C4_constructor_receives_props_without_callbacks :
  forall v host props,
  exists options w slots rest,
    strip_options props = Ok options /\
    (forall k, options !! k
               = if bool_decide (k ∈ callbackNames) then None else props !! k) /\
    mount v props (init (Some host)) = (w, Ok slots) /\
    log w = CNew 0 host options :: rest /\
    constructions rest = [].
Proof.
  intros v host props.
  destruct (mount_spec v host props) as (w&slots&l&Hrun&Hm&Hlog&Hw).
  exists (constructor_options props), w, slots,
         (delivered 0 props (propertyNames v) ++ l).
  split; [reflexivity|]. split; [apply constructor_options_lookup|].
  split; [done|]. split; [done|].
  rewrite constructions_app.
  destruct (delivered_quiet 0 props (propertyNames v)) as [-> _].
  by destruct (wiring_quiet l Hw) as (->&_).
Qed.

Lemma wiring_no_set l k n x :
  Forall (fun y => is_wiring y = true) l -> CSet k n x ∉ l.
Proof.
  intros Hl Hin. rewrite Forall_forall in Hl. by specialize (Hl _ Hin).
Qed.

Lemma propertyNames_not_callbacks v n :
  n ∈ propertyNames v -> n ∉ callbackNames.
Proof.
  revert n. apply Forall_forall. destruct v;
    apply (bool_decide_unpack _); by vm_compute.
Qed.

Lemma get_defined_lookup (props : props_bag) n :
  get props n <> VUndefined -> props !! n = Some (get props n).
Proof. unfold get. by destruct (props !! n). Qed.

Lemma filter_delivered props names n :
  NoDup names -> n ∈ names -> get props n <> VUndefined ->
  filter (fun nx : string * value => nx.1 = n)
    (omap (fun n' => if is_defined (get props n')
                     then Some (n', get props n') else None) names)
  = [(n, get props n)].
Proof.
  intros Hnd. induction Hnd as [|n' names Hn' Hnd IH]; intros Hin Hdef.
  - by apply elem_of_nil in Hin.
  - assert (Hnone : n ∉ names ->
      filter (fun nx : string * value => nx.1 = n)
        (omap (fun n' => if is_defined (get props n')
                         then Some (n', get props n') else None) names) = []).
    { clear. induction names as [|m names IH]; intros Hm; [done|]. simpl.
      apply not_elem_of_cons in Hm as [Hne Hm].
      destruct (is_defined (get props m)); [|by apply IH].
      rewrite filter_cons_False by (simpl; congruence). by apply IH. }
    simpl. destruct (decide (n' = n)) as [->|Hne].
    + apply is_defined_true in Hdef. rewrite Hdef.
      rewrite filter_cons_True by done. f_equal. by apply Hnone.
    + apply elem_of_cons in Hin as [->|Hin]; [done|].
      destruct (is_defined (get props n')); [|by apply IH].
      rewrite filter_cons_False by done. by apply IH.
Qed.

(** C10: on the first commit the constructor receives the options bag, in
    which every enumerated option with a defined value is present, and the
    property effects, which run on the first commit too, then call [$set]
    once more for each of these options, with the same value: the [$set]
    calls of the mount are exactly the defined enumerated options, in the
    order of the enumeration. *)
Theorem C10_mount_delivers_each_defined_option_twice :
  forall v host props,
  exists w slots options l,
    mount v props (init (Some host)) = (w, Ok slots) /\
    log w = CNew 0 host options :: l /\
    sets l = omap (fun n => if is_defined (get props n)
                            then Some (n, get props n) else None)
                  (propertyNames v) /\
    forall n, n ∈ propertyNames v -> get props n <> VUndefined ->
      options !! n = Some (get props n) /\
      CSet 0 n (get props n) ∈ l /\
      filter (fun nx : string * value => nx.1 = n) (sets l)
      = [(n, get props n)].
Proof.
  intros v host props.
  destruct (mount_spec v host props) as (w&slots&l&Hrun&Hm&Hlog&Hw).
  exists w, slots, (constructor_options props),
         (delivered 0 props (propertyNames v) ++ l).
  split; [done|]. split; [done|].
  assert (Hsets : sets (delivered 0 props (propertyNames v) ++ l)
                  = omap (fun n => if is_defined (get props n)
                                   then Some (n, get props n) else None)
                         (propertyNames v)).
  { rewrite sets_app, sets_delivered.
    destruct (wiring_quiet l Hw) as (_&_&->). by rewrite app_nil_r. }
  split; [done|]. intros n Hn Hdef. split; [|split].
  - rewrite constructor_options_lookup.
    rewrite bool_decide_eq_false_2
      by (by eapply propertyNames_not_callbacks).
    by apply get_defined_lookup.
  - apply elem_of_app. left. unfold delivered.
    apply list_elem_of_In, in_flat_map. exists n.
    split; [by apply list_elem_of_In|].
    apply is_defined_true in Hdef. rewrite Hdef. by left.
  - rewrite Hsets. apply filter_delivered; [apply propertyNames_NoDup|done..].
Qed.

Lemma C10_witness :
  exists w slots options l,
    mount Extended props1 (init (Some host1)) = (w, Ok slots) /\
    log w = CNew 0 host1 options :: l /\
    options !! "apiKey" = Some (get props1 "apiKey") /\
    CSet 0 "apiKey" (get props1 "apiKey") ∈ l /\
    filter (fun nx : string * value => nx.1 = "apiKey") (sets l)
    = [("apiKey", get props1 "apiKey")].
Proof.
  destruct (C10_mount_delivers_each_defined_option_twice Extended host1 props1)
    as (w&slots&options&l&H1&H2&_&H3).
  exists w, slots, options, l. split; [exact H1|]. split; [exact H2|].
  apply H3.
  - apply (bool_decide_unpack _). by vm_compute.
  - by vm_compute.
Defined.

(** C1: in a mounted adapter, when a render differs from the previous one in
    the value of one enumerated option only, and the new value is not
    [undefined], the commit makes exactly one [$set] call, on the wrapped
    instance, with the one-key payload of that option and its new value;
    when no callback changed either, this is the only call of the commit. *)
Theorem C1_single_option_change_forwards_once :
  forall v prev props slots w name,
    reachable v prev slots w ->
    name ∈ propertyNames v ->
    get props name <> get prev name ->
    get props name <> VUndefined ->
    (forall k, k ∈ propertyNames v -> k <> name -> get props k = get prev k) ->
    exists w' slots' l,
      update v props slots w = (w', Ok slots') /\
      controlRef w = Some 0 /\
      log w' = log w ++ l /\
      sets l = [(name, get props name)] /\
      CSet 0 name (get props name) ∈ l /\
      (Forall (fun fn => get props fn = get prev fn) callbackNames ->
       l = [CSet 0 name (get props name)]).
Proof.
  intros v prev props slots w name Hreach Hname Hch Hdef Hsame.
  apply reachable_mounted in Hreach.
  destruct (update_spec v prev props slots w 0 Hreach)
    as (w'&slots'&l1&l2&Hrun&Hm&Hlog&Hw1&Hw2&Hquiet).
  rewrite (forwarded_single 0 props prev (propertyNames v) name) in Hlog
    by (done || apply propertyNames_NoDup).
  exists w', slots', (l1 ++ [CSet 0 name (get props name)] ++ l2).
  split; [done|]. split; [by destruct Hreach as (?&?&?&?&?)|].
  split; [done|]. split; [|split].
  - rewrite !sets_app.
    destruct (wiring_quiet l1 Hw1) as (_&_&->).
    by destruct (wiring_quiet l2 Hw2) as (_&_&->).
  - apply elem_of_app. right. by left.
  - intros Hcb. destruct Hquiet as [-> ->]; [|done].
    unfold callbackNames in Hcb. by rewrite Forall_map in Hcb.
Qed.

Lemma C1_witness :
  exists w' slots' l,
    update Extended props2 (slots1 Extended) (world1 Extended) = (w', Ok slots') /\
    controlRef (world1 Extended) = Some 0 /\
    log w' = log (world1 Extended) ++ l /\
    sets l = [("apiKey", get props2 "apiKey")] /\
    CSet 0 "apiKey" (get props2 "apiKey") ∈ l /\
    (Forall (fun fn => get props2 fn = get props1 fn) callbackNames ->
     l = [CSet 0 "apiKey" (get props2 "apiKey")]).
Proof.
  apply (C1_single_option_change_forwards_once Extended props1 props2
           (slots1 Extended) (world1 Extended) "apiKey").
  - apply scenario_reachable.
  - apply (bool_decide_unpack _). by vm_compute.
  - by vm_compute.
  - by vm_compute.
  - apply (proj1 (Forall_forall
               (fun k => k <> "apiKey" -> get props2 k = get props1 k)
               (propertyNames Extended))).
    apply (bool_decide_unpack _). by vm_compute.
Defined.

(** C5: when an option's value is [undefined] in a render, no [$set] call
    for that option is made by the commit of that render, at mount and at
    every later commit, whatever the previous value was. *)
Theorem C5_undefined_option_is_never_forwarded :
  forall v props name,
    get props name = VUndefined ->
    (forall host, exists w slots,
        mount v props (init (Some host)) = (w, Ok slots) /\
        forall k x, CSet k name x ∉ log w) /\
    (forall prev slots w,
        reachable v prev slots w ->
        exists w' slots' l,
          update v props slots w = (w', Ok slots') /\
          log w' = log w ++ l /\
          forall k x, CSet k name x ∉ l).
Proof.
  intros v props name Hundef. split.
  - intros host.
    destruct (mount_spec v host props) as (w&slots&l&Hrun&Hm&Hlog&Hw).
    exists w, slots. split; [done|]. intros k x. rewrite Hlog.
    intros [?|[Hin|Hin]%elem_of_app]%elem_of_cons; [done| |].
    + apply delivered_elem in Hin as (_&_&->&Hx). by apply Hx.
    + by apply wiring_no_set in Hin.
  - intros prev slots w Hreach. apply reachable_mounted in Hreach.
    destruct (update_spec v prev props slots w 0 Hreach)
      as (w'&slots'&l1&l2&Hrun&Hm&Hlog&Hw1&Hw2&_).
    exists w', slots', (l1 ++ forwarded 0 props prev (propertyNames v) ++ l2).
    split; [done|]. split; [done|]. intros k x.
    intros [Hin|[Hin|Hin]%elem_of_app]%elem_of_app.
    + by apply wiring_no_set in Hin.
    + apply forwarded_elem in Hin as (_&_&->&Hx&_). by apply Hx.
    + by apply wiring_no_set in Hin.
Qed.

Lemma C5_witness :
  get props2 "bbox" = VUndefined /\
  (forall host, exists w slots,
      mount Base props2 (init (Some host)) = (w, Ok slots) /\
      forall k x, CSet k "bbox" x ∉ log w) /\
  (forall prev slots w,
      reachable Base prev slots w ->
      exists w' slots' l,
        update Base props2 slots w = (w', Ok slots') /\
        log w' = log w ++ l /\
        forall k x, CSet k "bbox" x ∉ l).
Proof.
  split; [reflexivity|].
  apply (C5_undefined_option_is_never_forwarded Base props2 "bbox").
  reflexivity.
Defined.

Lemma updates_spec v renders :
  forall prev slots w c,
    mounted v prev slots w c ->
    exists w' slots' props l,
      updates v renders slots w = (w', Ok slots') /\
      mounted v props slots' w' c /\
      log w' = log w ++ l.
Proof.
  induction renders as [|props renders IH]; intros prev slots w c Hm; simpl.
  - exists w, slots, prev, []. by rewrite app_nil_r.
  - destruct (update_spec v prev props slots w c Hm)
      as (w1&slots1&l1&l2&Hrun&Hm1&Hlog1&_).
    destruct (IH props slots1 w1 c Hm1) as (w2&slots2&p&l&Hrest&Hm2&Hlog2).
    eexists w2, slots2, p, _. unfold bind. rewrite Hrun.
    split; [done|]. split; [done|]. by rewrite Hlog2, Hlog1, <- app_assoc.
Qed.

(** C3: a lifecycle on an existing host node (mount, any number of
    re-renders, unmount) completes, constructs one wrapped instance, with
    its first call, and destroys it once; in every state between mount and
    unmount that instance is the only one alive, it is the only one ever
    constructed and it has not been destroyed; unmount destroys it. *)
Theorem C3_one_instance_per_lifecycle :
  forall v host props renders,
    (exists w,
        lifecycle v props renders (init (Some host)) = (w, Ok tt) /\
        head (log w) = Some (CNew 0 host (constructor_options props)) /\
        constructions (log w) = [0] /\
        destructions (log w) = [0] /\
        alive w = []) /\
    (forall p slots w,
        reachable v p slots w ->
        alive w = [0] /\
        constructions (log w) = [0] /\
        destructions (log w) = [] /\
        exists w' l,
          unmount slots w = (w', Ok tt) /\
          log w' = log w ++ CDestroy 0 :: l /\
          destructions l = [] /\
          alive w' = []).
Proof.
  intros v host props renders.
  assert (Hun : forall p slots w,
    mounted v p slots w 0 ->
    exists w' l,
      unmount slots w = (w', Ok tt) /\
      log w' = log w ++ CDestroy 0 :: l /\
      destructions l = [] /\ constructions l = [] /\ alive w' = []).
  { intros p slots w Hm.
    destruct (unmount_spec v p slots w 0 Hm) as (w'&l&Hrun&Hlog&Hw&Ha&_).
    exists w', l. by destruct (wiring_quiet l Hw) as (Hq1&Hq2&_). }
  split.
  - destruct (mount_spec v host props) as (w0&slots0&l0&Hrun0&Hm0&Hlog0&_).
    destruct (updates_spec v renders props slots0 w0 0 Hm0)
      as (w1&slots1&p&l1&Hrun1&Hm1&Hlog1).
    destruct (Hun p slots1 w1 Hm1) as (w2&l&Hrun2&Hlog2&Hq1&Hq2&Ha).
    exists w2. unfold lifecycle, bind. rewrite Hrun0, Hrun1.
    split; [done|].
    destruct Hm1 as (hs&_&_&_&_&Hcons&Hdes).
    split; [by rewrite Hlog2, Hlog1, Hlog0|].
    rewrite Hlog2, constructions_app, destructions_app, Hcons, Hdes.
    simpl. fold (constructions l) (destructions l).
    by rewrite Hq1, Hq2.
  - intros p slots w Hreach. apply reachable_mounted in Hreach.
    destruct (Hun p slots w Hreach) as (w'&l&Hrun&Hlog&Hq1&_&Ha).
    destruct Hreach as (hs&_&_&_&Halive&Hcons&Hdes).
    split; [done|]. split; [done|]. split; [done|]. by exists w', l.
Qed.

Lemma C3_witness :
  (exists w,
      lifecycle Extended props1 [props2; props3] (init (Some host1))
      = (w, Ok tt) /\
      head (log w) = Some (CNew 0 host1 (constructor_options props1)) /\
      constructions (log w) = [0] /\
      destructions (log w) = [0] /\
      alive w = []) /\
  (alive (world1 Extended) = [0] /\
   constructions (log (world1 Extended)) = [0] /\
   destructions (log (world1 Extended)) = [] /\
   exists w' l,
     unmount (slots1 Extended) (world1 Extended) = (w', Ok tt) /\
     log w' = log (world1 Extended) ++ CDestroy 0 :: l /\
     destructions l = [] /\
     alive w' = []).
Proof.
  destruct (C3_one_instance_per_lifecycle Extended host1 props1
              [props2; props3]) as [H1 H2].
  split; [exact H1|].
  apply (H2 props1). apply scenario_reachable.
Defined.

(** C6: mounting without a host node throws [Error] at once: no call
    reaches the wrapped component, no instance is constructed, and the
    lifecycle ends there with that error, whatever renders would have
    followed.  Nothing else fails when the callbacks are functions or
    [undefined], as [Props] types them: on an existing host node the mount
    succeeds, and from every state that such renders lead to between mount
    and unmount every re-render, the unmount and every method of the
    imperative handle succeed. *)
Theorem C6_missing_host_node_is_the_only_failure :
  forall v props,
    mount v props (init None) = (init None, Throw Error) /\
    (forall renders,
        lifecycle v props renders (init None) = (init None, Throw Error)) /\
    (forall host, exists w slots,
        mount v props (init (Some host)) = (w, Ok slots)) /\
    (forall prev slots w,
        typed_reachable v prev slots w ->
        (exists w' slots', update v props slots w = (w', Ok slots')) /\
        (exists w', unmount slots w = (w', Ok tt)) /\
        Forall (fun name => forall args, exists w' r,
                    invoke v name args w = (w', Ok r))
               (map fst (imperative_handle v))) /\
    Forall (fun name => forall args, exists r,
                invoke v name args (init None) = (init None, Ok r))
           (map fst (imperative_handle v)).
Proof.
  intros v props.
  assert (Hfail : mount v props (init None) = (init None, Throw Error))
    by (unfold mount; by rewrite render_ok).
  split; [done|]. split; [|split; [|split]].
  - intros renders. unfold lifecycle, bind. by rewrite Hfail.
  - intros host.
    destruct (mount_spec v host props) as (w&slots&l&Hrun&_). by exists w, slots.
  - intros prev slots w Hreach. apply typed_reachable_reachable in Hreach.
    apply reachable_mounted in Hreach.
    split; [|split].
    + destruct (update_spec v prev props slots w 0 Hreach)
        as (w'&slots'&l1&l2&Hrun&_).
      by exists w', slots'.
    + destruct (unmount_spec v prev slots w 0 Hreach) as (w'&l&Hrun&_).
      by exists w'.
    + destruct Hreach as (_&_&_&Hc&_).
      destruct v; repeat constructor; intros args;
        unfold invoke; simpl; unfold optional_call, bind, get_controlRef;
        rewrite Hc; by eexists _, _.
  - destruct v; repeat constructor; intros args; by eexists.
Qed.

Lemma C6_witness :
  mount Extended props1 (init None) = (init None, Throw Error) /\
  lifecycle Extended props1 [props2; props3] (init None)
  = (init None, Throw Error) /\
  (exists w slots, mount Extended props1 (init (Some host1)) = (w, Ok slots)) /\
  (exists w' slots',
      update Extended props1 (slots1 Extended) (world1 Extended)
      = (w', Ok slots')) /\
  (exists w', unmount (slots1 Extended) (world1 Extended) = (w', Ok tt)).
Proof.
  destruct (C6_missing_host_node_is_the_only_failure Extended props1)
    as (H1&H2&H3&H4&_).
  destruct (H4 props1 _ _ (scenario_typed Extended)) as (H5&H6&_).
  split; [exact H1|]. split; [exact (H2 _)|]. split; [exact (H3 _)|].
  split; [exact H5|exact H6].
Defined.

(** C7: while the wrapped instance does not exist, every method of the
    imperative handle returns without throwing and changes nothing; once it
    exists, [focus], [blur] and [setQuery], and [clearMap] and [clearList]
    in the extended variant, each make the one call of the same name on the
    wrapped instance. *)
Theorem C7_imperative_methods_delegate_or_do_nothing :
  forall v args d l s a f,
    Forall (fun name =>
              invoke v name args (World d None l s a f)
              = (World d None l s a f, Ok VUndefined))
           (map fst (imperative_handle v)) /\
    forall c,
      invoke v "focus" args (World d (Some c) l s a f)
      = (World d (Some c) (l ++ [CFocus c]) s a f, Ok VUndefined) /\
      invoke v "blur" args (World d (Some c) l s a f)
      = (World d (Some c) (l ++ [CBlur c]) s a f, Ok VUndefined) /\
      invoke v "setQuery" args (World d (Some c) l s a f)
      = (World d (Some c)
           (l ++ [CSetQuery c (arg 0 args)
                    (with_default (VBool true) (arg 1 args))]) s a f,
         Ok VUndefined) /\
      invoke Extended "clearMap" args (World d (Some c) l s a f)
      = (World d (Some c) (l ++ [CClearMap c]) s a f, Ok VUndefined) /\
      invoke Extended "clearList" args (World d (Some c) l s a f)
      = (World d (Some c) (l ++ [CClearList c]) s a f, Ok VUndefined).
Proof.
  intros v args d l s a f. split.
  - destruct v; by repeat constructor.
  - intros c. by destruct v.
Qed.



(** C2 does not hold in the base variant: there the event effect returns
    nothing, so the subscription of a replaced callback is never removed.
    After mounting with [onSelect: cb1] and re-rendering with
    [onSelect: cb2] the wrapped instance holds two subscriptions to
    "select", a "select" event calls both callbacks, and no unsubscribe
    function was called; after re-rendering without [onSelect] the
    subscription of [cb1] is still there.  The extended variant, on the same
    renders, removes the old subscription before it installs the new one and
    holds one subscription, or none. *)
Theorem C2_base_variant_keeps_replaced_subscriptions :
  map sub_callback (subscribed "select" (replaced Base)) = [cb1; cb2] /\
  dispatch "select" (VStr "Paris") (replaced Base)
  = [(cb1, VStr "Paris"); (cb2, VStr "Paris")] /\
  filter (fun x => is_wiring x = true) (log (replaced Base))
  = [ COn 0 "featuresListed" None; COn 0 "featuresMarked" None;
      COn 0 "optionsVisibilityChange" None; COn 0 "pick" None;
      COn 0 "queryChange" None; COn 0 "response" None;
      COn 0 "reverseToggle" None; COn 0 "select" (Some cb1);
      COn 0 "select" (Some cb2) ] /\
  map sub_callback (subscribed "select" (removed Base)) = [cb1] /\
  map sub_callback (subscribed "select" (replaced Extended)) = [cb2] /\
  filter (fun x => is_wiring x = true) (log (replaced Extended))
  = [ COn 0 "select" (Some cb1); CUnsubscribe 1; COn 0 "select" (Some cb2) ] /\
  subscribed "select" (removed Extended) = [].
Proof. by vm_compute. Qed.

(** * Further properties *)

(** ** How a commit is composed *)

Section Phases.
Variable v : variant.

Lemma mount_phases host props w hs :
  commit_mount (handler_effects v props event_table)
    (emit (delivered 0 props (propertyNames v))
       (World (Some host) (Some 0)
          [CNew 0 host (constructor_options props)] [] [0] 1))
  = (w, Ok hs) ->
  mount v props (init (Some host))
  = (w, Ok (Slot [] (Some (Destroy 0))
              :: map (property_slot props) (propertyNames v) ++ hs)).
Proof.
  intros Hrun. unfold mount. rewrite render_ok.
  change (commit_mount (?e :: ?es) (init (Some host)))
    with (bind (commit_mount es)
            (fun r => ret (Slot [] (Some (Destroy 0)) :: r))
            (World (Some host) (Some 0)
               [CNew 0 host (constructor_options props)] [] [0] 1)).
  unfold bind. rewrite commit_mount_app.
  rewrite (property_mount 0) by done. by rewrite Hrun.
Qed.

Lemma update_phases prev props c hs w w1 w2 hs' :
  commit_cleanup_changed (handler_effects v props event_table) hs w
  = (w1, Ok tt) ->
  controlRef w1 = Some c ->
  commit_create_changed (handler_effects v props event_table) hs
    (emit (forwarded c props prev (propertyNames v)) w1) = (w2, Ok hs') ->
  update v props
    (Slot [] (Some (Destroy c))
       :: map (property_slot prev) (propertyNames v) ++ hs) w
  = (w2, Ok (Slot [] (Some (Destroy c))
               :: map (property_slot props) (propertyNames v) ++ hs')).
Proof.
  intros Hrun1 Hc Hrun2. unfold update. rewrite render_ok.
  unfold bind. rewrite cleanup_changed_skip by done.
  rewrite commit_cleanup_changed_app by (by rewrite !length_map).
  rewrite property_cleanup, Hrun1.
  rewrite create_changed_skip by done.
  rewrite commit_create_changed_app by (by rewrite !length_map).
  rewrite (property_create c) by done. by rewrite Hrun2.
Qed.

Lemma unmount_phases props c hs w w' :
  commit_unmount hs
    (World (divRef w) (controlRef w) (log w ++ [CDestroy c])
       (subscriptions w) (filter (fun k => k <> c) (alive w)) (fresh w))
  = (w', Ok tt) ->
  unmount (Slot [] (Some (Destroy c))
             :: map (property_slot props) (propertyNames v) ++ hs) w
  = (w', Ok tt).
Proof.
  intros Hrun. unfold unmount.
  change (commit_unmount (?s :: ?ss) w)
    with (bind (dollar_destroy c) (fun _ => commit_unmount ss) w).
  unfold bind, dollar_destroy. rewrite commit_unmount_app.
  assert (Hp : forall names w2,
    commit_unmount (map (property_slot props) names) w2 = (w2, Ok tt)).
  { induction names as [|n names IH]; intros w2; [done|]. simpl.
    unfold bind. simpl. apply IH. }
  by rewrite Hp.
Qed.

End Phases.

(** ** What a re-render forwards *)

Lemma sets_forwarded c props prev names :
  sets (forwarded c props prev names)
  = omap (fun n => if bool_decide (get props n = get prev n) then None
                   else if is_defined (get props n)
                        then Some (n, get props n) else None) names.
Proof.
  induction names as [|n names IH]; [done|]. simpl.
  rewrite sets_app, IH. unfold object_is.
  by destruct (bool_decide (get props n = get prev n)),
              (is_defined (get props n)).
Qed.

(** X1: A re-render in which every enumerated option and every callback has
    the value of the previous render makes no call on the wrapped instance
    and leaves the adapter as it was, whatever else changed in the props. *)
Theorem rerender_with_same_values_does_nothing :
  forall v prev props slots w,
    reachable v prev slots w ->
    (forall n, n ∈ propertyNames v -> get props n = get prev n) ->
    (forall fn, fn ∈ callbackNames -> get props fn = get prev fn) ->
    update v props slots w = (w, Ok slots).
Proof.
  intros v prev props slots w Hreach Hopt Hcb.
  apply reachable_mounted in Hreach as (hs & -> & Hhs & Hc & _).
  assert (Hsame : Forall (fun ef => get props ef.2 = get prev ef.2) event_table).
  { apply Forall_forall. intros ef Hef. apply Hcb.
    by apply list_elem_of_In, in_map, list_elem_of_In. }
  destruct (handler_same v props prev event_table hs w Hhs Hsame) as [H1 H2].
  replace (map (property_slot prev) (propertyNames v))
    with (map (property_slot props) (propertyNames v)) at 2.
  - apply (update_phases v prev props 0 hs w w w hs); [done|done|].
    by rewrite forwarded_none, emit_nil.
  - apply map_ext_in. intros n Hn. unfold property_slot.
    by rewrite Hopt by by apply list_elem_of_In.
Qed.

Lemma rerender_with_same_values_witness :
  update Extended props5 (slots1 Extended) (world1 Extended)
  = (world1 Extended, Ok (slots1 Extended)).
Proof.
  apply (rerender_with_same_values_does_nothing Extended props1).
  - apply scenario_reachable.
  - apply (proj1 (Forall_forall
               (fun n => get props5 n = get props1 n)
               (propertyNames Extended))).
    apply (bool_decide_unpack _). by vm_compute.
  - apply (proj1 (Forall_forall
               (fun fn => get props5 fn = get props1 fn) callbackNames)).
    apply (bool_decide_unpack _). by vm_compute.
Defined.

(** X2: The [$set] calls of a re-render are the enumerated options whose value
    changed and is not [undefined], one call each, in the order of the
    enumeration; a re-render constructs and destroys nothing. *)
Theorem rerender_forwards_changed_defined_options :
  forall v prev props slots w,
    reachable v prev slots w ->
    exists w' slots' l,
      update v props slots w = (w', Ok slots') /\
      log w' = log w ++ l /\
      sets l = omap (fun n => if bool_decide (get props n = get prev n)
                              then None
                              else if is_defined (get props n)
                                   then Some (n, get props n) else None)
                    (propertyNames v) /\
      constructions l = [] /\ destructions l = [].
Proof.
  intros v prev props slots w Hreach. apply reachable_mounted in Hreach.
  destruct (update_spec v prev props slots w 0 Hreach)
    as (w'&slots'&l1&l2&Hrun&_&Hlog&Hw1&Hw2&_).
  exists w', slots', (l1 ++ forwarded 0 props prev (propertyNames v) ++ l2).
  destruct (wiring_quiet l1 Hw1) as (Ha1&Hb1&Hc1).
  destruct (wiring_quiet l2 Hw2) as (Ha2&Hb2&Hc2).
  destruct (forwarded_quiet 0 props prev (propertyNames v)) as [Ha3 Hb3].
  split; [done|]. split; [done|].
  rewrite !sets_app, !constructions_app, !destructions_app.
  rewrite Ha1, Ha2, Ha3, Hb1, Hb2, Hb3, Hc1, Hc2, sets_forwarded.
  by rewrite app_nil_r.
Qed.

Lemma rerender_forwards_witness :
  exists w' slots' l,
    update Base props3 (slots1 Base) (world1 Base) = (w', Ok slots') /\
    log w' = log (world1 Base) ++ l /\
    sets l = omap (fun n => if bool_decide (get props3 n = get props1 n)
                            then None
                            else if is_defined (get props3 n)
                                 then Some (n, get props3 n) else None)
                  (propertyNames Base) /\
    constructions l = [] /\ destructions l = [].
Proof.
  apply (rerender_forwards_changed_defined_options Base props1 props3).
  apply scenario_reachable.
Defined.

(** X3: An option that the variant does not enumerate is never forwarded with
    [$set], at mount and at every later commit: it reaches the wrapped
    instance through the constructor only. *)
Theorem unlisted_option_is_never_forwarded :
  forall v props name,
    name ∉ propertyNames v ->
    (forall host, exists w slots,
        mount v props (init (Some host)) = (w, Ok slots) /\
        forall k x, CSet k name x ∉ log w) /\
    (forall prev slots w,
        reachable v prev slots w ->
        exists w' slots' l,
          update v props slots w = (w', Ok slots') /\
          log w' = log w ++ l /\
          forall k x, CSet k name x ∉ l).
Proof.
  intros v props name Hname. split.
  - intros host.
    destruct (mount_spec v host props) as (w&slots&l&Hrun&Hm&Hlog&Hw).
    exists w, slots. split; [done|]. intros k x. rewrite Hlog.
    intros [?|[Hin|Hin]%elem_of_app]%elem_of_cons; [done| |].
    + by apply delivered_elem in Hin as (_&Hn&_).
    + by apply wiring_no_set in Hin.
  - intros prev slots w Hreach. apply reachable_mounted in Hreach.
    destruct (update_spec v prev props slots w 0 Hreach)
      as (w'&slots'&l1&l2&Hrun&Hm&Hlog&Hw1&Hw2&_).
    exists w', slots', (l1 ++ forwarded 0 props prev (propertyNames v) ++ l2).
    split; [done|]. split; [done|]. intros k x.
    intros [Hin|[Hin|Hin]%elem_of_app]%elem_of_app.
    + by apply wiring_no_set in Hin.
    + by apply forwarded_elem in Hin as (_&Hn&_).
    + by apply wiring_no_set in Hin.
Qed.

Lemma unlisted_option_witness :
  "showFullGeometry" ∈ propertyNames Base /\
  get props5 "showFullGeometry" = VBool true /\
  (forall host, exists w slots,
      mount Extended props5 (init (Some host)) = (w, Ok slots) /\
      forall k x, CSet k "showFullGeometry" x ∉ log w) /\
  (forall prev slots w,
      reachable Extended prev slots w ->
      exists w' slots' l,
        update Extended props5 slots w = (w', Ok slots') /\
        log w' = log w ++ l /\
        forall k x, CSet k "showFullGeometry" x ∉ l).
Proof.
  split; [apply (bool_decide_unpack _); by vm_compute|].
  split; [by vm_compute|].
  apply (unlisted_option_is_never_forwarded Extended props5 "showFullGeometry").
  apply (bool_decide_unpack _). by vm_compute.
Defined.

Lemma Forall_impl_elem {A} (P Q : A -> Prop) (l : list A) :
  Forall P l -> (forall x, x ∈ l -> P x -> Q x) -> Forall Q l.
Proof.
  rewrite !Forall_forall. intros HP Himpl x Hx. by apply Himpl, HP.
Qed.

(** ** The event effects of the base variant *)

Section BaseHandlers.
Variables (c : control) (props prev : props_bag).

Lemma base_create e fn w :
  controlRef w = Some c ->
  exists w',
    create (event_effect Base props e fn) w = (w', Ok None) /\
    controlRef w' = Some c /\
    log w' = log w ++ [base_on_call c props (e, fn)] /\
    callbacks e w'
    = callbacks e w ++ (if truthy (get props fn) then [get props fn] else []) /\
    (forall e', e' <> e -> subscribed e' w' = subscribed e' w).
Proof.
  intros Hc. unfold event_effect, base_on_call. simpl.
  unfold bind, get_controlRef. rewrite Hc.
  destruct (truthy (get props fn)); simpl; eexists; (split; [reflexivity|]).
  - split; [done|]. split; [done|]. split.
    + unfold callbacks, subscribed. simpl. rewrite filter_app, map_app.
      by rewrite (filter_cons_True _ (Subscription _ _ _ _)) by done.
    + intros e' Hne. unfold subscribed. simpl. rewrite filter_app.
      rewrite (filter_cons_False _ (Subscription _ _ _ _))
        by (simpl; congruence).
      by rewrite filter_nil, app_nil_r.
  - split; [done|]. split; [done|]. split; [|done].
    unfold callbacks, subscribed. simpl. by rewrite app_nil_r.
Qed.

Lemma callbacks_same e w w' :
  subscribed e w' = subscribed e w -> callbacks e w' = callbacks e w.
Proof. unfold callbacks. by intros ->. Qed.

Lemma base_mount_handlers tbl w :
  NoDup tbl.*1 -> controlRef w = Some c ->
  exists w',
    commit_mount (handler_effects Base props tbl) w
    = (w', Ok (map (handler_slot props) tbl)) /\
    controlRef w' = Some c /\
    log w' = log w ++ map (base_on_call c props) tbl /\
    Forall (fun ef =>
              callbacks ef.1 w'
              = callbacks ef.1 w
                ++ (if truthy (get props ef.2) then [get props ef.2] else []))
           tbl /\
    (forall e, e ∉ tbl.*1 -> subscribed e w' = subscribed e w).
Proof.
  revert w. induction tbl as [|[e fn] tbl IH]; intros w Hnd Hc.
  - exists w. split; [done|]. split; [done|].
    split; [by rewrite app_nil_r|]. split; [constructor|done].
  - rewrite fmap_cons in Hnd. apply NoDup_cons in Hnd as [He Hnd].
    simpl in He.
    destruct (base_create e fn w Hc) as (w0&Hrun&Hc0&Hlog0&Hcb0&Hother0).
    destruct (IH w0 Hnd Hc0) as (w1&Hrest&Hc1&Hlog1&Hcbs&Hother1).
    exists w1. split; [|split; [done|split; [|split]]].
    + simpl. unfold event_effect in Hrun. simpl in Hrun.
      unfold bind at 1. rewrite Hrun. unfold bind, ret. by rewrite Hrest.
    + rewrite Hlog1, Hlog0. simpl. by rewrite <- app_assoc.
    + constructor.
      * simpl. by rewrite (callbacks_same e w0 w1) by by apply Hother1.
      * eapply Forall_impl_elem; [exact Hcbs|]. intros ef Hef Heq.
        rewrite Heq. f_equal. apply callbacks_same, Hother0.
        by eapply not_in_tail_ne.
    + intros e' [Hne Hin]%not_elem_of_cons.
      rewrite Hother1 by done. by apply Hother0.
Qed.

Lemma base_cleanup_handlers tbl w :
  commit_cleanup_changed (handler_effects Base props tbl)
    (map (handler_slot prev) tbl) w = (w, Ok tt).
Proof.
  revert w. induction tbl as [|[e fn] tbl IH]; intros w; [done|]. simpl.
  unfold bind. destruct (object_is _ _ && true); simpl; apply IH.
Qed.

Lemma base_unmount_handlers tbl w :
  commit_unmount (map (handler_slot props) tbl) w = (w, Ok tt).
Proof.
  revert w. induction tbl as [|ef tbl IH]; intros w; [done|]. simpl.
  unfold bind. simpl. apply IH.
Qed.

Lemma base_rerun_handlers tbl w :
  NoDup tbl.*1 -> controlRef w = Some c ->
  exists w',
    commit_create_changed (handler_effects Base props tbl)
      (map (handler_slot prev) tbl) w
    = (w', Ok (map (handler_slot props) tbl)) /\
    controlRef w' = Some c /\
    log w' = log w
               ++ omap (fun ef => if bool_decide (get props ef.2 = get prev ef.2)
                                  then None
                                  else Some (base_on_call c props ef)) tbl /\
    Forall (fun ef =>
              callbacks ef.1 w'
              = callbacks ef.1 w
                ++ (if bool_decide (get props ef.2 = get prev ef.2) then []
                    else if truthy (get props ef.2) then [get props ef.2]
                         else []))
           tbl /\
    (forall e, e ∉ tbl.*1 -> subscribed e w' = subscribed e w).
Proof.
  revert w. induction tbl as [|[e fn] tbl IH]; intros w Hnd Hc.
  - exists w. split; [done|]. split; [done|].
    split; [by rewrite app_nil_r|]. split; [constructor|done].
  - rewrite fmap_cons in Hnd. apply NoDup_cons in Hnd as [He Hnd].
    simpl in He. simpl. unfold object_is. rewrite andb_true_r.
    case_bool_decide as Heq.
    + destruct (IH w Hnd Hc) as (w1&Hrest&Hc1&Hlog1&Hcbs&Hother1).
      exists w1. unfold bind, ret. rewrite Hrest.
      split; [unfold handler_slot; simpl; by rewrite Heq|].
      split; [done|]. split; [exact Hlog1|].
      split; [|by intros e' [Hne Hin]%not_elem_of_cons; apply Hother1].
      constructor; [|done]. simpl. rewrite bool_decide_eq_true_2 by done.
      rewrite app_nil_r. by apply callbacks_same, Hother1.
    + destruct (base_create e fn w Hc) as (w0&Hrun&Hc0&Hlog0&Hcb0&Hother0).
      destruct (IH w0 Hnd Hc0) as (w1&Hrest&Hc1&Hlog1&Hcbs&Hother1).
      exists w1. unfold event_effect in Hrun. simpl in Hrun.
      unfold bind at 1. unfold bind at 1. rewrite Hrun.
      unfold bind, ret. rewrite Hrest.
      split; [done|]. split; [done|].
      split; [rewrite Hlog1, Hlog0; by rewrite <- app_assoc|]. split.
      * constructor.
        -- simpl. rewrite bool_decide_eq_false_2 by done.
           by rewrite (callbacks_same e w0 w1) by by apply Hother1.
        -- eapply Forall_impl_elem; [exact Hcbs|]. intros ef Hef Hcbef.
           rewrite Hcbef. f_equal. apply callbacks_same, Hother0.
           by eapply not_in_tail_ne.
      * intros e' [Hne Hin]%not_elem_of_cons.
        rewrite Hother1 by done. by apply Hother0.
Qed.

End BaseHandlers.

(** ** The base variant between mount and unmount *)

Lemma delivered_no_unsubscribe c props names :
  Forall (fun x => is_unsubscribe x = false) (delivered c props names).
Proof.
  induction names as [|n names IH]; [constructor|]. simpl.
  apply Forall_app. split; [|done].
  destruct (is_defined (get props n)); by repeat constructor.
Qed.

Lemma forwarded_no_unsubscribe c props prev names :
  Forall (fun x => is_unsubscribe x = false) (forwarded c props prev names).
Proof.
  induction names as [|n names IH]; [constructor|]. simpl.
  apply Forall_app. split; [|done].
  destruct (object_is _ _), (is_defined (get props n)); by repeat constructor.
Qed.

Lemma base_mount_exact host props :
  exists w,
    mount Base props (init (Some host)) = (w, Ok (base_slots props)) /\
    controlRef w = Some 0 /\
    log w = CNew 0 host (constructor_options props)
              :: delivered 0 props (propertyNames Base)
              ++ map (base_on_call 0 props) event_table /\
    Forall (fun ef =>
              callbacks ef.1 w
              = if truthy (get props ef.2) then [get props ef.2] else [])
           event_table.
Proof.
  destruct (base_mount_handlers 0 props event_table
              (emit (delivered 0 props (propertyNames Base))
                 (World (Some host) (Some 0)
                    [CNew 0 host (constructor_options props)] [] [0] 1))
              event_table_NoDup eq_refl)
    as (w&Hrun&Hc&Hlog&Hcbs&_).
  exists w. split; [by apply mount_phases|]. split; [done|]. split; [done|].
  eapply Forall_impl; [exact Hcbs|]. by intros ef ->.
Qed.

Lemma base_update_exact prev props w :
  controlRef w = Some 0 ->
  exists w',
    update Base props (base_slots prev) w = (w', Ok (base_slots props)) /\
    controlRef w' = Some 0 /\
    log w' = log w
               ++ forwarded 0 props prev (propertyNames Base)
               ++ omap (fun ef =>
                          if bool_decide (get props ef.2 = get prev ef.2)
                          then None else Some (base_on_call 0 props ef))
                       event_table /\
    Forall (fun ef =>
              callbacks ef.1 w'
              = callbacks ef.1 w
                ++ (if bool_decide (get props ef.2 = get prev ef.2) then []
                    else if truthy (get props ef.2) then [get props ef.2]
                         else []))
           event_table.
Proof.
  intros Hc.
  destruct (base_rerun_handlers 0 props prev event_table
              (emit (forwarded 0 props prev (propertyNames Base)) w)
              event_table_NoDup Hc)
    as (w'&Hrun&Hc'&Hlog&Hcbs&_).
  exists w'. split; [|split; [done|split; [|done]]].
  - apply (update_phases Base prev props 0 _ w w w'); [|done|done].
    apply base_cleanup_handlers.
  - rewrite Hlog. simpl. by rewrite <- app_assoc.
Qed.

Lemma base_reachable props slots w :
  reachable Base props slots w ->
  slots = base_slots props /\ controlRef w = Some 0 /\
  Forall (fun x => is_unsubscribe x = false) (log w).
Proof.
  induction 1 as [host props slots w Hrun
                 |prev props slots w slots' w' _ IH Hrun
                 |props slots w name args w' r Hreach IH Hrun].
  - destruct (base_mount_exact host props) as (w1&Hm&Hc&Hlog&_).
    rewrite Hm in Hrun. injection Hrun as <- <-.
    split; [done|]. split; [done|]. rewrite Hlog.
    constructor; [done|]. apply Forall_app.
    split; [apply delivered_no_unsubscribe|].
    apply Forall_forall. by intros x (ef&->&_)%list_elem_of_fmap.
  - destruct IH as (->&Hc&Hlog).
    destruct (base_update_exact prev props w Hc) as (w1&Hu&Hc1&Hlog1&_).
    rewrite Hu in Hrun. injection Hrun as <- <-.
    split; [done|]. split; [done|]. rewrite Hlog1.
    apply Forall_app. split; [done|]. apply Forall_app.
    split; [apply forwarded_no_unsubscribe|].
    apply Forall_forall. intros x (ef&_&Hx)%list_elem_of_omap.
    case_bool_decide; [done|]. by injection Hx as <-.
  - destruct IH as (->&Hc&Hlog).
    apply reachable_mounted in Hreach.
    destruct (invoke_spec Base props _ w 0 name args w' r Hreach Hrun)
      as (x&Hx&->&_).
    split; [done|]. split; [done|]. simpl.
    apply Forall_app. split; [done|]. constructor; [|constructor].
    by destruct x.
Qed.

(** X8: In the base variant the hook slots are determined by the props of the
    last render and no event slot holds a cleanup: between mount and unmount
    no unsubscribe function is ever called, and unmount makes one call,
    [$destroy], and leaves every subscription in place. *)
Theorem base_variant_never_unsubscribes :
  forall props slots w,
    reachable Base props slots w ->
    slots = base_slots props /\
    (forall id, CUnsubscribe id ∉ log w) /\
    unmount slots w
    = (World (divRef w) (controlRef w) (log w ++ [CDestroy 0])
         (subscriptions w) [] (fresh w), Ok tt).
Proof.
  intros props slots w Hreach.
  destruct (base_reachable props slots w Hreach) as (->&Hc&Hlog).
  apply reachable_mounted in Hreach as (hs&_&_&_&Ha&_).
  split; [done|]. split.
  - intros id Hin. rewrite Forall_forall in Hlog. by specialize (Hlog _ Hin).
  - apply unmount_phases. rewrite Ha.
    rewrite filter_cons_False by (intros H; by apply H).
    rewrite filter_nil. apply base_unmount_handlers.
Qed.

Lemma base_variant_never_unsubscribes_witness :
  slots1 Base = base_slots props1 /\
  (forall id, CUnsubscribe id ∉ log (world1 Base)) /\
  unmount (slots1 Base) (world1 Base)
  = (World (divRef (world1 Base)) (controlRef (world1 Base))
       (log (world1 Base) ++ [CDestroy 0])
       (subscriptions (world1 Base)) [] (fresh (world1 Base)), Ok tt).
Proof.
  apply (base_variant_never_unsubscribes props1).
  apply scenario_reachable.
Defined.

(** X9: A re-render of the base variant calls [$on] once for every event whose
    callback changed, in the order of the enumeration and after the [$set]
    calls, with [undefined] where the callback was removed, and makes no
    other call: the callbacks subscribed to an event are those subscribed
    before, followed by the new callback when it changed and is given. *)
Theorem base_variant_rerender_only_adds_subscriptions :
  forall prev props slots w,
    reachable Base prev slots w ->
    exists w' slots',
      update Base props slots w = (w', Ok slots') /\
      log w' = log w
                 ++ forwarded 0 props prev (propertyNames Base)
                 ++ omap (fun ef =>
                            if bool_decide (get props ef.2 = get prev ef.2)
                            then None else Some (base_on_call 0 props ef))
                         event_table /\
      Forall (fun ef =>
                callbacks ef.1 w'
                = callbacks ef.1 w
                  ++ (if bool_decide (get props ef.2 = get prev ef.2) then []
                      else if truthy (get props ef.2) then [get props ef.2]
                           else []))
             event_table.
Proof.
  intros prev props slots w Hreach.
  destruct (base_reachable prev slots w Hreach) as (->&Hc&_).
  destruct (base_update_exact prev props w Hc) as (w'&Hu&_&Hlog&Hcbs).
  by exists w', (base_slots props).
Qed.

Lemma base_variant_rerender_witness :
  exists w' slots',
    update Base props3 (slots1 Base) (world1 Base) = (w', Ok slots') /\
    log w' = log (world1 Base)
               ++ forwarded 0 props3 props1 (propertyNames Base)
               ++ omap (fun ef =>
                          if bool_decide (get props3 ef.2 = get props1 ef.2)
                          then None else Some (base_on_call 0 props3 ef))
                       event_table /\
    Forall (fun ef =>
              callbacks ef.1 w'
              = callbacks ef.1 (world1 Base)
                ++ (if bool_decide (get props3 ef.2 = get props1 ef.2) then []
                    else if truthy (get props3 ef.2) then [get props3 ef.2]
                         else []))
           event_table.
Proof.
  apply (base_variant_rerender_only_adds_subscriptions props1 props3).
  apply scenario_reachable.
Defined.

(** ** The calls of a mount *)

Lemma extended_create_log c props e fn w :
  controlRef w = Some c ->
  exists w' f,
    create (event_effect Extended props e fn) w = (w', Ok f) /\
    controlRef w' = Some c /\
    log w' = log w ++ (if truthy (get props fn)
                       then [COn c e (Some (get props fn))] else []).
Proof.
  intros Hc. unfold event_effect. simpl.
  destruct (truthy (get props fn)).
  - unfold bind, get_controlRef. rewrite Hc. simpl. by eexists _, _.
  - exists w, None. by rewrite app_nil_r.
Qed.

Lemma extended_mount_log c props tbl w :
  controlRef w = Some c ->
  exists w' hs,
    commit_mount (handler_effects Extended props tbl) w = (w', Ok hs) /\
    controlRef w' = Some c /\
    log w' = log w
               ++ omap (fun ef => if truthy (get props ef.2)
                                  then Some (COn c ef.1 (Some (get props ef.2)))
                                  else None) tbl.
Proof.
  revert w. induction tbl as [|[e fn] tbl IH]; intros w Hc.
  - exists w, []. by rewrite app_nil_r.
  - destruct (extended_create_log c props e fn w Hc) as (w0&f&Hrun&Hc0&Hlog0).
    destruct (IH w0 Hc0) as (w1&hs&Hrest&Hc1&Hlog1).
    exists w1, (Slot [get props fn] f :: hs).
    split; [|split; [done|]].
    + simpl. unfold event_effect in Hrun. simpl in Hrun.
      unfold bind at 1. rewrite Hrun. unfold bind, ret. by rewrite Hrest.
    + rewrite Hlog1, Hlog0, <- app_assoc. simpl.
      by destruct (truthy (get props fn)).
Qed.

(** X10: The calls of a mount on an existing host node are, in this order: the
    constructor, with the props without the callbacks; one [$set] for every
    enumerated option that is defined; then, in the extended variant, one
    [$on] for every event whose callback is given, and in the base variant
    one [$on] for every event, with [undefined] where no callback is
    given. *)
Theorem mount_makes_constructor_set_and_on_calls :
  forall v host props,
  exists w slots,
    mount v props (init (Some host)) = (w, Ok slots) /\
    log w
    = CNew 0 host (constructor_options props)
        :: flat_map (fun n => if is_defined (get props n)
                              then [CSet 0 n (get props n)] else [])
                    (propertyNames v)
        ++ match v with
           | Extended =>
               omap (fun ef => if truthy (get props ef.2)
                               then Some (COn 0 ef.1 (Some (get props ef.2)))
                               else None) event_table
           | Base =>
               map (fun ef => COn 0 ef.1 (if truthy (get props ef.2)
                                          then Some (get props ef.2)
                                          else None)) event_table
           end.
Proof.
  intros [] host props.
  - destruct (extended_mount_log 0 props event_table
                (emit (delivered 0 props (propertyNames Extended))
                   (World (Some host) (Some 0)
                      [CNew 0 host (constructor_options props)] [] [0] 1))
                eq_refl)
      as (w&hs&Hrun&_&Hlog).
    eexists w, _. split; [by apply mount_phases|]. by rewrite Hlog.
  - destruct (base_mount_exact host props) as (w&Hrun&_&Hlog&_).
    by exists w, (base_slots props).
Qed.

(** ** Unmount and events in the extended variant *)

Section ExtendedUnmount.
Variables (props : props_bag) (c : control).

Lemma extended_unmount_head e fn s w :
  live props c w (e, fn) s -> ids_ok w ->
  exists w0 l,
    run_slot_cleanup s w = (w0, Ok tt) /\
    subscribed e w0 = [] /\ ids_ok w0 /\
    (forall e', e' <> e -> subscribed e' w0 = subscribed e' w) /\
    log w0 = log w ++ l /\
    Forall (fun x => is_unsubscribe x = true) l /\
    length l = if truthy (get props fn) then 1 else 0.
Proof.
  intros [_ Hs] Hids. simpl in Hs. unfold run_slot_cleanup.
  destruct (truthy (get props fn)).
  - destruct Hs as (id&->&Hsub). simpl.
    destruct (unsubscribe_spec e id c (get props fn) w Hids Hsub)
      as (w0&Hrun&Hids0&Hsub0&Hother&_&Hlog).
    exists w0, [CUnsubscribe id]. split; [done|]. split; [done|].
    split; [done|]. split; [done|]. split; [done|].
    split; [by repeat constructor|done].
  - destruct Hs as [-> Hsub]. exists w, []. split; [done|].
    split; [done|]. split; [done|]. split; [done|].
    split; [by rewrite app_nil_r|]. split; [constructor|done].
Qed.

Lemma extended_unmount_handlers tbl hs w :
  NoDup tbl.*1 -> Forall2 (live props c w) tbl hs -> ids_ok w ->
  exists w' l,
    commit_unmount hs w = (w', Ok tt) /\
    Forall (fun ef => subscribed ef.1 w' = []) tbl /\
    ids_ok w' /\
    (forall e, e ∉ tbl.*1 -> subscribed e w' = subscribed e w) /\
    log w' = log w ++ l /\
    Forall (fun x => is_unsubscribe x = true) l /\
    length l = length (filter (fun ef => truthy (get props ef.2) = true) tbl).
Proof.
  intros Hnd Hlive. revert hs w Hnd Hlive.
  induction tbl as [|[e fn] tbl IH]; intros hs w Hnd Hlive Hids.
  - apply Forall2_nil_inv_l in Hlive as ->. exists w, [].
    split; [done|]. split; [constructor|]. split; [done|]. split; [done|].
    split; [by rewrite app_nil_r|]. split; [constructor|done].
  - apply Forall2_cons_inv_l in Hlive as (s&hs'&Hs&Hhs&->).
    rewrite fmap_cons in Hnd. apply NoDup_cons in Hnd as [He Hnd].
    simpl in He.
    destruct (extended_unmount_head e fn s w Hs Hids)
      as (w0&l0&Hrun&Hsub0&Hids0&Hother0&Hlog0&Hl0&Hlen0).
    destruct (IH hs' w0) as (w1&l1&Hrest&Hsubs&Hids1&Hother1&Hlog1&Hl1&Hlen1);
      [done| |done|].
    { eapply Forall2_impl_elem; [exact Hhs|]. intros ef s' Hef.
      apply live_transport. apply Hother0. by eapply not_in_tail_ne. }
    exists w1, (l0 ++ l1).
    split; [|split; [|split; [done|split; [|split; [|split]]]]].
    + simpl. unfold bind. by rewrite Hrun.
    + constructor; [|done]. simpl. by rewrite Hother1.
    + intros e' [Hne Hin]%not_elem_of_cons.
      rewrite Hother1 by done. by apply Hother0.
    + by rewrite Hlog1, Hlog0, <- app_assoc.
    + by apply Forall_app.
    + rewrite length_app, Hlen0, Hlen1.
      destruct (truthy (get props fn)) eqn:Ht.
      * by rewrite filter_cons_True by done.
      * by rewrite filter_cons_False by (simpl; congruence).
Qed.

End ExtendedUnmount.

(** X6: In the extended variant, when the callbacks of every render were
    functions or [undefined], unmount first calls [$destroy] and then the
    unsubscribe function of every event whose callback is given, one call
    each, and nothing else; afterwards nothing is subscribed to any
    enumerated event. *)
Theorem extended_unmount_removes_every_subscription :
  forall props slots w,
    typed_reachable Extended props slots w ->
    exists w' l,
      unmount slots w = (w', Ok tt) /\
      log w' = log w ++ CDestroy 0 :: l /\
      Forall (fun x => is_unsubscribe x = true) l /\
      length l
      = length (filter (fun ef => truthy (get props ef.2) = true) event_table) /\
      Forall (fun ef => subscribed ef.1 w' = []) event_table.
Proof.
  intros props slots w Hreach. apply typed_reachable_reachable in Hreach.
  apply extended_reachable in Hreach as (hs & -> & Hlive & Hids & Hc).
  destruct (extended_unmount_handlers props 0 event_table hs
              (World (divRef w) (controlRef w) (log w ++ [CDestroy 0])
                 (subscriptions w) (filter (fun k => k <> 0) (alive w))
                 (fresh w))
              event_table_NoDup)
    as (w'&l&Hrun&Hsubs&_&_&Hlog&Hl&Hlen); [|done|].
  { eapply Forall2_impl; [exact Hlive|]. intros ef s.
    by apply live_transport. }
  exists w', l. split; [by apply unmount_phases|].
  split; [|done]. rewrite Hlog. simpl. by rewrite <- app_assoc.
Qed.

Lemma extended_unmount_witness :
  exists w' l,
    unmount (slots1 Extended) (world1 Extended) = (w', Ok tt) /\
    log w' = log (world1 Extended) ++ CDestroy 0 :: l /\
    Forall (fun x => is_unsubscribe x = true) l /\
    length l
    = length (filter (fun ef => truthy (get props1 ef.2) = true) event_table) /\
    Forall (fun ef => subscribed ef.1 w' = []) event_table.
Proof.
  apply (extended_unmount_removes_every_subscription props1).
  apply scenario_typed.
Defined.

(** X7: In the extended variant, between mount and unmount, an event of an
    enumerated name calls the callback that the last render gave for it,
    once, with the detail of the event, and calls nothing when the last
    render gave no callback: a callback of an earlier render is never
    called. *)
Theorem extended_event_calls_the_current_callback_once :
  forall props slots w,
    reachable Extended props slots w ->
    Forall (fun ef =>
              forall detail,
                dispatch ef.1 detail w
                = if truthy (get props ef.2)
                  then [(get props ef.2, detail)] else [])
           event_table.
Proof.
  intros props slots w Hreach.
  apply extended_reachable in Hreach as (hs & _ & Hlive & _).
  induction Hlive as [|ef s tbl hs' [_ Hs] _ IH]; constructor; [|done].
  intros detail. unfold dispatch. destruct (truthy (get props ef.2)).
  - by destruct Hs as (id&_&->).
  - by destruct Hs as [_ ->].
Qed.

Lemma extended_event_witness :
  Forall (fun ef =>
            forall detail,
              dispatch ef.1 detail (replaced Extended)
              = if truthy (get props3 ef.2)
                then [(get props3 ef.2, detail)] else [])
         event_table.
Proof.
  apply (extended_event_calls_the_current_callback_once props3
           (match snd (update Extended props3 (slots1 Extended)
                         (world1 Extended)) with
            | Ok slots => slots
            | Throw _ => []
            end)).
  apply (reach_update Extended props1 props3 (slots1 Extended)
           (world1 Extended)); [apply scenario_reachable|].
  unfold replaced.
  destruct (extended_update_spec props1 props3 (slots1 Extended)
              (world1 Extended)
              (extended_reachable _ _ _ (scenario_reachable Extended)))
    as (w'&slots'&l1&l2&->&_). done.
Defined.

(** ** The handle after unmount *)

(** X11: [controlRef] is never cleared: after unmount it still refers to the
    destroyed instance, so a method called through a handle that the caller
    kept is not dropped but reaches the destroyed instance. *)
Theorem handle_after_unmount_reaches_the_destroyed_instance :
  forall v props slots w w',
    reachable v props slots w ->
    unmount slots w = (w', Ok tt) ->
    alive w' = [] /\
    destructions (log w') = [0] /\
    controlRef w' = Some 0 /\
    forall args,
      invoke v "focus" args w' = (emit [CFocus 0] w', Ok VUndefined) /\
      invoke v "blur" args w' = (emit [CBlur 0] w', Ok VUndefined) /\
      invoke v "setQuery" args w'
      = (emit [CSetQuery 0 (arg 0 args)
                 (with_default (VBool true) (arg 1 args))] w', Ok VUndefined).
Proof.
  intros v props slots w w' Hreach Hrun.
  apply reachable_mounted in Hreach.
  destruct (unmount_spec v props slots w 0 Hreach)
    as (w1&l&Hrun1&Hlog&Hw&Ha&Hc).
  rewrite Hrun1 in Hrun. injection Hrun as ->.
  destruct Hreach as (_&_&_&_&_&_&Hdes).
  destruct (wiring_quiet l Hw) as (_&Hq&_).
  split; [done|]. split.
  { rewrite Hlog, destructions_app, Hdes. simpl.
    fold (destructions l). by rewrite Hq. }
  split; [done|]. intros args.
  destruct v; unfold invoke; simpl; unfold optional_call, bind, get_controlRef;
    by rewrite Hc.
Qed.

Lemma handle_after_unmount_witness :
  exists w',
    unmount (slots1 Base) (world1 Base) = (w', Ok tt) /\
    alive w' = [] /\
    destructions (log w') = [0] /\
    controlRef w' = Some 0 /\
    forall args,
      invoke Base "focus" args w' = (emit [CFocus 0] w', Ok VUndefined) /\
      invoke Base "blur" args w' = (emit [CBlur 0] w', Ok VUndefined) /\
      invoke Base "setQuery" args w'
      = (emit [CSetQuery 0 (arg 0 args)
                 (with_default (VBool true) (arg 1 args))] w', Ok VUndefined).
Proof.
  destruct (unmount_spec Base props1 (slots1 Base) (world1 Base) 0
              (reachable_mounted _ _ _ _ (scenario_reachable Base)))
    as (w'&l&Hrun&_).
  exists w'. split; [exact Hrun|].
  apply (handle_after_unmount_reaches_the_destroyed_instance Base props1
           (slots1 Base) (world1 Base) w').
  - apply scenario_reachable.
  - exact Hrun.
Defined.

(** ** [getEventFnName] on arbitrary names *)

Lemma toUpperCase_lower c :
  (97 <= N_of_ascii c <= 122)%N ->
  N_of_ascii (toUpperCase c) = (N_of_ascii c - 32)%N.
Proof.
  intros [H1 H2]. unfold toUpperCase.
  rewrite (proj2 (N.leb_le _ _) H1), (proj2 (N.leb_le _ _) H2). simpl.
  apply N_ascii_embedding. lia.
Qed.

(** X12: [getEventFnName] throws on the empty name and on no other; on a
    name that starts with an ASCII character the result is two characters
    longer than the name; two such names with the same result have the same
    characters after the first and first characters with the same upper
    case, so names that start with a lower-case ASCII letter and have the
    same result are equal. *)
Theorem getEventFnName_fails_on_the_empty_name_only :
  (forall name e,
      getEventFnName name = Throw e <-> name = "" /\ e = TypeError) /\
  (forall name r,
      ascii_initial name ->
      getEventFnName name = Ok r ->
      String.length r = 2 + String.length name) /\
  (forall a b r,
      ascii_initial a -> ascii_initial b ->
      getEventFnName a = Ok r -> getEventFnName b = Ok r ->
      exists ca cb rest,
        a = String ca rest /\ b = String cb rest /\
        toUpperCase ca = toUpperCase cb) /\
  (forall a b r,
      lower_initial a -> lower_initial b ->
      getEventFnName a = Ok r -> getEventFnName b = Ok r -> a = b).
Proof.
  assert (Hsame : forall a b r,
    getEventFnName a = Ok r -> getEventFnName b = Ok r ->
    exists ca cb rest,
      a = String ca rest /\ b = String cb rest /\
      toUpperCase ca = toUpperCase cb).
  { intros [|ca ra] [|cb rb] r Ha Hb; simplify_eq/=. by exists ca, cb, rb. }
  split; [|split; [|split; [by eauto|]]].
  - intros [|c rest] e; simpl; split.
    + by intros [= <-].
    + by intros [_ ->].
    + done.
    + by intros [? _].
  - intros [|c rest] r _ Hr; simplify_eq/=. done.
  - intros a b r Hla Hlb Ha Hb.
    destruct (Hsame a b r Ha Hb) as (ca&cb&rest&->&->&Hup).
    simpl in Hla, Hlb. f_equal.
    assert (Hn : N_of_ascii ca = N_of_ascii cb).
    { pose proof (toUpperCase_lower ca Hla) as H1.
      pose proof (toUpperCase_lower cb Hlb) as H2.
      rewrite Hup in H1. lia. }
    by rewrite <- (ascii_N_embedding ca), <- (ascii_N_embedding cb), Hn.
Qed.

Lemma getEventFnName_witness :
  getEventFnName "" = Throw TypeError /\
  String.length "onSelect" = 2 + String.length "select" /\
  (exists ca cb rest,
      "select" = String ca rest /\ "Select" = String cb rest /\
      toUpperCase ca = toUpperCase cb) /\
  lower_initial "select" /\
  getEventFnName "select" = Ok "onSelect" /\
  "select" = "select".
Proof.
  destruct getEventFnName_fails_on_the_empty_name_only as (H1&H2&H3&H4).
  split; [by apply H1|]. split; [apply H2; by vm_compute|].
  split; [apply (H3 "select" "Select" "onSelect"); by vm_compute|].
  assert (Hl : lower_initial "select") by by vm_compute.
  split; [exact Hl|]. split; [reflexivity|].
  by apply (H4 "select" "select" "onSelect").
Defined.

(** ** The calls of a re-render in the extended variant *)

Section ExtendedRerender.
Variables (props prev : props_bag) (c : control).

Lemma live_tracked w ef s : live prev c w ef s -> tracked prev ef s.
Proof.
  unfold live, tracked. intros [Hd Hs]. split; [done|].
  destruct (truthy (get prev ef.2)).
  - destruct Hs as (id&Hid&_). by exists id.
  - by destruct Hs.
Qed.

Lemma extended_cleanup_log tbl hs w :
  Forall2 (tracked prev) tbl hs ->
  exists w' l,
    commit_cleanup_changed (handler_effects Extended props tbl) hs w
    = (w', Ok tt) /\
    controlRef w' = controlRef w /\
    log w' = log w ++ l /\
    Forall (fun x => is_unsubscribe x = true) l /\
    length l
    = length (filter (fun ef => get props ef.2 <> get prev ef.2 /\
                                truthy (get prev ef.2) = true) tbl).
Proof.
  intros Htr. revert w.
  induction Htr as [|[e fn] s tbl hs [Hd Hs] _ IH]; intros w.
  - exists w, []. split; [done|]. split; [done|].
    split; [by rewrite app_nil_r|]. split; [constructor|done].
  - simpl in Hd, Hs. simpl. rewrite Hd. simpl.
    unfold object_is. rewrite andb_true_r.
    case_bool_decide as Heq.
    + destruct (IH w) as (w1&l&Hrest&Hc1&Hlog1&Hl1&Hlen1).
      exists w1, l. unfold bind, ret. rewrite Hrest.
      split; [done|]. split; [done|]. split; [done|]. split; [done|].
      by rewrite filter_cons_False by (simpl; tauto).
    + unfold run_slot_cleanup. destruct (truthy (get prev fn)) eqn:Ht.
      * destruct Hs as (id&->). simpl.
        destruct (IH (fst (unsubscribe id w))) as (w1&l&Hrest&Hc1&Hlog1&Hl1&Hlen1).
        exists w1, (CUnsubscribe id :: l). unfold bind. simpl.
        simpl in Hrest. rewrite Hrest.
        split; [done|]. split; [done|].
        split; [rewrite Hlog1; simpl; by rewrite <- app_assoc|].
        split; [by constructor|].
        rewrite filter_cons_True by done. simpl. by rewrite Hlen1.
      * rewrite Hs. destruct (IH w) as (w1&l&Hrest&Hc1&Hlog1&Hl1&Hlen1).
        exists w1, l. unfold bind, ret. rewrite Hrest.
        split; [done|]. split; [done|]. split; [done|]. split; [done|].
        rewrite filter_cons_False; [done|]. simpl. intros [_ H].
        by rewrite Ht in H.
Qed.

Lemma extended_rerun_log tbl hs w :
  Forall2 (tracked prev) tbl hs ->
  controlRef w = Some c ->
  exists w' hs',
    commit_create_changed (handler_effects Extended props tbl) hs w
    = (w', Ok hs') /\
    controlRef w' = Some c /\
    log w' = log w
               ++ omap (fun ef =>
                          if bool_decide (get props ef.2 = get prev ef.2)
                          then None
                          else if truthy (get props ef.2)
                               then Some (COn c ef.1 (Some (get props ef.2)))
                               else None) tbl.
Proof.
  intros Htr. revert w.
  induction Htr as [|[e fn] s tbl hs [Hd Hs] _ IH]; intros w Hc.
  - exists w, []. by rewrite app_nil_r.
  - simpl in Hd. simpl. rewrite Hd. simpl.
    unfold object_is. rewrite andb_true_r.
    case_bool_decide as Heq.
    + destruct (IH w Hc) as (w1&hs'&Hrest&Hc1&Hlog1).
      exists w1, (s :: hs'). unfold bind, ret. by rewrite Hrest.
    + destruct (extended_create_log c props e fn w Hc)
        as (w0&f&Hrun&Hc0&Hlog0).
      destruct (IH w0 Hc0) as (w1&hs'&Hrest&Hc1&Hlog1).
      exists w1, (Slot [get props fn] f :: hs').
      unfold event_effect in Hrun. simpl in Hrun.
      unfold bind at 1. unfold bind at 1. rewrite Hrun.
      unfold bind, ret. rewrite Hrest.
      split; [done|]. split; [done|].
      rewrite Hlog1, Hlog0, <- app_assoc.
      by destruct (truthy (get props fn)).
Qed.

End ExtendedRerender.

(** X5: When the callbacks of every render so far were functions or
    [undefined], a re-render of the extended variant makes, in this order:
    one call of an unsubscribe function for every event whose callback
    changed and was given in the previous render; the [$set] calls; one
    [$on] for every event whose callback changed and is given now, in the
    order of the enumeration.  It makes no other call. *)
Theorem extended_rerender_unsubscribes_sets_and_subscribes :
  forall prev props slots w,
    typed_reachable Extended prev slots w ->
    exists w' slots' l,
      update Extended props slots w = (w', Ok slots') /\
      log w'
      = log w ++ l
          ++ forwarded 0 props prev (propertyNames Extended)
          ++ omap (fun ef =>
                     if bool_decide (get props ef.2 = get prev ef.2)
                     then None
                     else if truthy (get props ef.2)
                          then Some (COn 0 ef.1 (Some (get props ef.2)))
                          else None) event_table /\
      Forall (fun x => is_unsubscribe x = true) l /\
      length l
      = length (filter (fun ef => get props ef.2 <> get prev ef.2 /\
                                  truthy (get prev ef.2) = true) event_table).
Proof.
  intros prev props slots w Hreach. apply typed_reachable_reachable in Hreach.
  apply extended_reachable in Hreach as (hs & -> & Hlive & _ & Hc).
  assert (Htr : Forall2 (tracked prev) event_table hs).
  { eapply Forall2_impl; [exact Hlive|]. intros ef s.
    apply live_tracked. }
  destruct (extended_cleanup_log props prev event_table hs w Htr)
    as (w1&l&Hrun1&Hc1&Hlog1&Hl&Hlen).
  rewrite Hc in Hc1.
  destruct (extended_rerun_log props prev 0 event_table hs
              (emit (forwarded 0 props prev (propertyNames Extended)) w1)
              Htr Hc1)
    as (w2&hs'&Hrun2&_&Hlog2).
  eexists w2, _, l.
  split; [by apply (update_phases Extended prev props 0 hs w w1 w2 hs')|].
  split; [|done]. rewrite Hlog2. simpl. by rewrite Hlog1, <- !app_assoc.
Qed.

Lemma extended_rerender_witness :
  exists w' slots' l,
    update Extended props3 (slots1 Extended) (world1 Extended)
    = (w', Ok slots') /\
    log w'
    = log (world1 Extended) ++ l
        ++ forwarded 0 props3 props1 (propertyNames Extended)
        ++ omap (fun ef =>
                   if bool_decide (get props3 ef.2 = get props1 ef.2)
                   then None
                   else if truthy (get props3 ef.2)
                        then Some (COn 0 ef.1 (Some (get props3 ef.2)))
                        else None) event_table /\
    Forall (fun x => is_unsubscribe x = true) l /\
    length l
    = length (filter (fun ef => get props3 ef.2 <> get props1 ef.2 /\
                                truthy (get props1 ef.2) = true) event_table).
Proof.
  apply (extended_rerender_unsubscribes_sets_and_subscribes props1 props3).
  apply scenario_typed.
Defined.
